(** * Screw motion: dual-number Rodrigues rotation and Rodrigues-Hamilton
      parameters

    A shallow embedding of the numerical core of the notebook [rod.ipynb]
    (classes [DualNumber] and [Quaternion], functions [rodrigues_rotation]
    and [rodrigues_hamilton_rotation]) and the proofs of its specified
    properties.

    Numbers are embedded in the real numbers: a finite float is a real, and
    the two kinds of non-finite value that numpy produces instead of raising
    (infinities and NaN) are kept as separate constructors.  Rounding and
    overflow are not modelled.  numpy arrays are objects of a store, because
    both rotators divide their axis argument in place. *)

From Stdlib Require Import Reals Lra RNsatz.
From stdpp Require Import base option gmap.

Local Open Scope R_scope.

(** ** Floating-point values *)

(** A float is a finite real, an infinity ([Inf true] is [-inf]) or NaN. *)
Inductive float64 : Type :=
  | Fin (r : R)
  | Inf (neg : bool)
  | NaN.

(** Sign bit of a nonzero real. *)
Definition is_neg (r : R) : bool := if Rlt_dec r 0 then true else false.

(** [x + y]; opposite infinities give NaN. *)
Definition fadd (x y : float64) : float64 :=
  match x, y with
  | Fin a, Fin b => Fin (a + b)
  | NaN, _ | _, NaN => NaN
  | Inf s, Inf t => if Bool.eqb s t then Inf s else NaN
  | Inf s, Fin _ | Fin _, Inf s => Inf s
  end.

(** [-x] *)
Definition fneg (x : float64) : float64 :=
  match x with
  | Fin a => Fin (- a)
  | Inf s => Inf (negb s)
  | NaN => NaN
  end.

(** [x - y] *)
Definition fsub (x y : float64) : float64 :=
  match x, y with
  | Fin a, Fin b => Fin (a - b)
  | _, _ => fadd x (fneg y)
  end.

(** [x * y]; zero times an infinity gives NaN. *)
Definition fmul (x y : float64) : float64 :=
  match x, y with
  | Fin a, Fin b => Fin (a * b)
  | NaN, _ | _, NaN => NaN
  | Inf s, Inf t => Inf (xorb s t)
  | Inf s, Fin b | Fin b, Inf s =>
      if Req_EM_T b 0 then NaN else Inf (xorb s (is_neg b))
  end.

(** [x / y] as numpy computes it on float64 operands: a division by zero
    does not raise (numpy emits a [RuntimeWarning] and goes on); [0/0] is
    NaN and [x/0] for nonzero [x] is an infinity.  Every divisor of this
    program is a square root, so a zero divisor is [+0.0] and the infinity
    has the sign of the dividend. *)
Definition fdiv (x y : float64) : float64 :=
  match x, y with
  | Fin a, Fin b =>
      if Req_EM_T b 0
      then (if Req_EM_T a 0 then NaN else Inf (is_neg a))
      else Fin (a / b)
  | NaN, _ | _, NaN => NaN
  | Inf _, Inf _ => NaN
  | Inf s, Fin b => Inf (xorb s (is_neg b))
  | Fin _, Inf _ => Fin 0
  end.

(** [x ** 2] *)
Definition fsquare (x : float64) : float64 := fmul x x.

(** [np.sqrt]; NaN on a negative argument. *)
Definition np_sqrt (x : float64) : float64 :=
  match x with
  | Fin a => if Rlt_dec a 0 then NaN else Fin (sqrt a)
  | Inf false => Inf false
  | Inf true => NaN
  | NaN => NaN
  end.

(** [np.sin], [np.cos]; NaN at an infinity. *)
Definition np_sin (x : float64) : float64 :=
  match x with Fin a => Fin (sin a) | _ => NaN end.

Definition np_cos (x : float64) : float64 :=
  match x with Fin a => Fin (cos a) | _ => NaN end.

Declare Scope float_scope.
Delimit Scope float_scope with fl.
Bind Scope float_scope with float64.
Infix "+" := fadd : float_scope.
Infix "-" := fsub : float_scope.
Infix "*" := fmul : float_scope.
Infix "/" := fdiv : float_scope.
Notation "- x" := (fneg x) : float_scope.

(** The literals [1] and [2] of the source. *)
Definition f1 : float64 := Fin 1.
Definition f2 : float64 := Fin 2.

Definition is_nan (x : float64) : bool :=
  match x with NaN => true | _ => false end.

(** ** class DualNumber *)

Module DualNumber.

Record t : Type := mk { real : float64; dual : float64 }.

(** [__add__] *)
Definition add (self other : t) : t :=
  mk (real self + real other)%fl (dual self + dual other)%fl.

(** [__mul__] *)
Definition mul (self other : t) : t :=
  mk (real self * real other)%fl
     (real self * dual other + dual self * real other)%fl.

(** [sin] *)
Definition sin (self : t) : t :=
  mk (np_sin (real self)) (dual self * np_cos (real self))%fl.

(** [cos] *)
Definition cos (self : t) : t :=
  mk (np_cos (real self)) (- dual self * np_sin (real self))%fl.

End DualNumber.

(** ** numpy arrays *)

(** A one-dimensional array of three floats (a [Vector3]). *)
Record ndarray : Type := Arr { item0 : float64; item1 : float64; item2 : float64 }.

(** [a * s] and [s * a] with a scalar [s] *)
Definition arr_scale (a : ndarray) (s : float64) : ndarray :=
  Arr (item0 a * s)%fl (item1 a * s)%fl (item2 a * s)%fl.

Definition scalar_times (s : float64) (a : ndarray) : ndarray :=
  Arr (s * item0 a)%fl (s * item1 a)%fl (s * item2 a)%fl.

(** [a / s] with a scalar [s] *)
Definition arr_div (a : ndarray) (s : float64) : ndarray :=
  Arr (item0 a / s)%fl (item1 a / s)%fl (item2 a / s)%fl.

(** [a + b] *)
Definition arr_add (a b : ndarray) : ndarray :=
  Arr (item0 a + item0 b)%fl (item1 a + item1 b)%fl (item2 a + item2 b)%fl.

(** [np.dot(a, b)] *)
Definition np_dot (a b : ndarray) : float64 :=
  (item0 a * item0 b + item1 a * item1 b + item2 a * item2 b)%fl.

(** [np.cross(a, b)] *)
Definition np_cross (a b : ndarray) : ndarray :=
  Arr (item1 a * item2 b - item2 a * item1 b)%fl
      (item2 a * item0 b - item0 a * item2 b)%fl
      (item0 a * item1 b - item1 a * item0 b)%fl.

(** [np.linalg.norm(a)]: the square root of [np.dot(a, a)]. *)
Definition np_linalg_norm (a : ndarray) : float64 := np_sqrt (np_dot a a).

(** A 3x3 array, by rows, and [m @ v]. *)
Record matrix : Type := Mat { row0 : ndarray; row1 : ndarray; row2 : ndarray }.

Definition matmul (m : matrix) (v : ndarray) : ndarray :=
  Arr (np_dot (row0 m) v) (np_dot (row1 m) v) (np_dot (row2 m) v).

Definition has_nan (a : ndarray) : bool :=
  is_nan (item0 a) || is_nan (item1 a) || is_nan (item2 a).

(** ** The store of array objects *)

(** Arguments of type [np.ndarray] are references.  [py A] is a computation
    that reads and updates the store; [None] stands for a reference to no
    object, which Python does not have. *)
Definition loc : Type := positive.
Abbreviation heap := (gmap loc ndarray).

Definition py (A : Type) : Type := heap -> option (A * heap).

#[global] Instance py_ret : MRet py := fun A x h => Some (x, h).
#[global] Instance py_bind : MBind py := fun A B f m h =>
  match m h with
  | Some (x, h') => f x h'
  | None => None
  end.

(** Read the array behind a reference. *)
Definition load (l : loc) : py ndarray :=
  fun h => match h !! l with Some a => Some (a, h) | None => None end.

(** Overwrite the array behind a reference. *)
Definition store (l : loc) (a : ndarray) : py unit :=
  fun h => match h !! l with Some _ => Some (tt, <[l := a]> h) | None => None end.

(** [a /= s]: numpy divides in place, in the object [a] refers to. *)
Definition idiv (a : loc) (s : float64) : py unit :=
  x ← load a; store a (arr_div x s).

(** ** class Quaternion *)

Module Quaternion.

Record t : Type := mk { l_0 : float64; l_1 : float64; l_2 : float64; l_3 : float64 }.

(** [normalize] *)
Definition normalize (self : t) : t :=
  let norm := np_sqrt (fsquare (l_0 self) + fsquare (l_1 self)
                       + fsquare (l_2 self) + fsquare (l_3 self))%fl in
  mk (l_0 self / norm)%fl (l_1 self / norm)%fl
     (l_2 self / norm)%fl (l_3 self / norm)%fl.

(** [to_rotation_matrix] *)
Definition to_rotation_matrix (self : t) : matrix :=
  let l0 := l_0 self in let l1 := l_1 self in
  let l2 := l_2 self in let l3 := l_3 self in
  Mat
    (Arr (f1 - f2 * fsquare l2 - f2 * fsquare l3)%fl
         (f2 * l1 * l2 - f2 * l3 * l0)%fl
         (f2 * l1 * l3 + f2 * l2 * l0)%fl)
    (Arr (f2 * l1 * l2 + f2 * l3 * l0)%fl
         (f1 - f2 * fsquare l1 - f2 * fsquare l3)%fl
         (f2 * l2 * l3 - f2 * l1 * l0)%fl)
    (Arr (f2 * l1 * l3 - f2 * l2 * l0)%fl
         (f2 * l2 * l3 + f2 * l1 * l0)%fl
         (f1 - f2 * fsquare l1 - f2 * fsquare l2)%fl).

(** [rotate_vector] *)
Definition rotate_vector (self : t) (v : ndarray) : ndarray :=
  let rot_mat := to_rotation_matrix self in
  matmul rot_mat v.

End Quaternion.

(** ** The two rotators *)

(** [rodrigues_rotation(v, a, theta_dual)] *)
Definition rodrigues_rotation (v a : loc) (theta_dual : DualNumber.t)
  : py ndarray :=
  a0 ← load a;
  _ ← idiv a (np_linalg_norm a0);
  a' ← load a;
  v' ← load v;
  let theta := DualNumber.real theta_dual in
  let v_rot :=
    arr_add
      (arr_add (arr_scale v' (np_cos theta))
               (arr_scale (np_cross a' v') (np_sin theta)))
      (arr_scale (arr_scale a' (np_dot a' v')) (f1 - np_cos theta)%fl) in
  let v_screw := arr_add v_rot (scalar_times (DualNumber.dual theta_dual) a') in
  mret v_screw.

(** [rodrigues_hamilton_rotation(v, a, theta, d)] *)
Definition rodrigues_hamilton_rotation (v a : loc) (theta d : float64)
  : py ndarray :=
  a0 ← load a;
  _ ← idiv a (np_linalg_norm a0);
  a' ← load a;
  v' ← load v;
  let lambda_0 := np_cos (theta / f2)%fl in
  let lambda_vec := arr_scale a' (np_sin (theta / f2)%fl) in
  let q := Quaternion.normalize
             (Quaternion.mk lambda_0 (item0 lambda_vec) (item1 lambda_vec)
                            (item2 lambda_vec)) in
  let v_rot := Quaternion.rotate_vector q v' in
  let v_screw := arr_add v_rot (scalar_times d a') in
  mret v_screw.

(** ** Vectors of reals *)

(** The vocabulary of the properties: vectors of [R^3], the finite arrays. *)
Record vec : Type := V3 { vx : R; vy : R; vz : R }.

Definition arr (u : vec) : ndarray := Arr (Fin (vx u)) (Fin (vy u)) (Fin (vz u)).

Definition vzero : vec := V3 0 0 0.
Definition vadd (u w : vec) : vec := V3 (vx u + vx w) (vy u + vy w) (vz u + vz w).
Definition vsub (u w : vec) : vec := V3 (vx u - vx w) (vy u - vy w) (vz u - vz w).
Definition vscale (c : R) (u : vec) : vec := V3 (c * vx u) (c * vy u) (c * vz u).
Definition vdot (u w : vec) : R := vx u * vx w + vy u * vy w + vz u * vz w.
Definition vcross (u w : vec) : vec :=
  V3 (vy u * vz w - vz u * vy w) (vz u * vx w - vx u * vz w) (vx u * vy w - vy u * vx w).
Definition vnorm (u : vec) : R := sqrt (vdot u u).

(** [u / ||u||], the direction of [u]. *)
Definition direction (u : vec) : vec := vscale (/ vnorm u) u.

(** The component of [u] along the unit vector [a], and the one orthogonal
    to it. *)
Definition along (a u : vec) : vec := vscale (vdot u a) a.
Definition orth (a u : vec) : vec := vsub u (along a u).

(** The rotation by [theta] of a vector [p] of the plane orthogonal to the
    unit vector [a]: the basis [p], [a x p] of that plane turns by [theta]. *)
Definition turn (a : vec) (theta : R) (p : vec) : vec :=
  vadd (vscale (cos theta) p) (vscale (sin theta) (vcross a p)).

(** ** The arguments after the in-place division *)

(** The axis array after [a /= np.linalg.norm(a)], from what it held. *)
Definition axis_after (a0 : ndarray) : ndarray := arr_div a0 (np_linalg_norm a0).

(** What the argument [v] refers to after the division: the divided axis
    when [v] and [a] are one object, and what it held otherwise. *)
Definition vec_after (v a : loc) (v0 a0 : ndarray) : ndarray :=
  if decide (v = a) then axis_after a0 else v0.

(** ** The rotation formulas over the reals *)

(** Rodrigues' formula about the unit vector [a], as [rodrigues_rotation]
    evaluates it. *)
Definition rodrigues (a v : vec) (theta : R) : vec :=
  vadd (vadd (vscale (cos theta) v) (vscale (sin theta) (vcross a v)))
       (vscale ((1 - cos theta) * vdot a v) a).

(** The product of the rotation matrix of the quaternion [(l0, l1, l2, l3)]
    with [v], as [Quaternion.rotate_vector] evaluates it. *)
Definition qrot (l0 l1 l2 l3 : R) (v : vec) : vec :=
  V3 ((1 - 2 * (l2 * l2) - 2 * (l3 * l3)) * vx v
      + (2 * l1 * l2 - 2 * l3 * l0) * vy v
      + (2 * l1 * l3 + 2 * l2 * l0) * vz v)
     ((2 * l1 * l2 + 2 * l3 * l0) * vx v
      + (1 - 2 * (l1 * l1) - 2 * (l3 * l3)) * vy v
      + (2 * l2 * l3 - 2 * l1 * l0) * vz v)
     ((2 * l1 * l3 - 2 * l2 * l0) * vx v
      + (2 * l2 * l3 + 2 * l1 * l0) * vy v
      + (1 - 2 * (l1 * l1) - 2 * (l2 * l2)) * vz v).

(** The screw displacement of [v] about the unit vector [a]. *)
Definition screw (a v : vec) (theta d : R) : vec :=
  vadd (rodrigues a v theta) (vscale d a).

(** The Euclidean norm of the four components of a quaternion. *)
Definition qnorm (l0 l1 l2 l3 : R) : R := sqrt (l0 * l0 + l1 * l1 + l2 * l2 + l3 * l3).

(** The vector that the argument [v] denotes once the axis has been divided:
    the direction of the axis when both arguments are one array. *)
Definition seen (pv pa : loc) (v a : vec) : vec :=
  if decide (pv = pa) then direction a else v.

(** The array that holds NaN in each item. *)
Definition nan_array : ndarray := Arr NaN NaN NaN.

(** ** Sample stores *)

(** [v = (1, 0, 0)] at reference 1 and the unit axis [(0, 0, 1)] at 2. *)
Definition store_unit : heap :=
  <[1%positive := arr (V3 1 0 0)]> (<[2%positive := arr (V3 0 0 1)]> ∅).

(** [v = (0, 1, 0)] at reference 1, the axis [(2, 0, 0)] at 2 and its
    multiple [3 * (2, 0, 0)] at 3. *)
Definition store_long : heap :=
  <[1%positive := arr (V3 0 1 0)]>
    (<[2%positive := arr (V3 2 0 0)]> (<[3%positive := arr (vscale 3 (V3 2 0 0))]> ∅)).

(** [v = (1, 0, 0)] at reference 1 and the zero axis at 2. *)
Definition store_zero : heap :=
  <[1%positive := arr (V3 1 0 0)]> (<[2%positive := arr vzero]> ∅).

(** [v = (0, 1, 0)] at reference 1, the axis [(2, 0, 0)] at 2 and the
    reversed axis at 3. *)
Definition store_reversed : heap :=
  <[1%positive := arr (V3 0 1 0)]>
    (<[2%positive := arr (V3 2 0 0)]> (<[3%positive := arr (vscale (-1) (V3 2 0 0))]> ∅)).

(** [v = (nan, 0, 0)] at reference 1 and the unit axis [(0, 0, 1)] at 2;
    [v = (1, 0, 0)] at 1 and the axis [(inf, 0, 1)] at 2. *)
Definition store_nan_vector : heap :=
  <[1%positive := Arr NaN (Fin 0) (Fin 0)]> (<[2%positive := arr (V3 0 0 1)]> ∅).

Definition store_inf_axis : heap :=
  <[1%positive := arr (V3 1 0 0)]> (<[2%positive := Arr (Inf false) (Fin 0) (Fin 1)]> ∅).

(** ** Finite floats *)

Definition is_finite (x : float64) : bool :=
  match x with Fin _ => true | _ => false end.

Definition all_finite (a : ndarray) : bool :=
  is_finite (item0 a) && is_finite (item1 a) && is_finite (item2 a).

Definition quaternion_has_nan (q : Quaternion.t) : bool :=
  is_nan (Quaternion.l_0 q) || is_nan (Quaternion.l_1 q)
  || is_nan (Quaternion.l_2 q) || is_nan (Quaternion.l_3 q).

(** ** The plotting callers *)

(** [np.array([x, y, z])]: a new array object, behind a reference that no
    object of the store has. *)
Definition np_array (x y z : float64) : py loc :=
  fun h => let l := fresh (dom h) in Some (l, <[l := Arr x y z]> h).

(** [plot_interactive_rodrigues]: the figure is represented by the data of
    its two [ax.quiver] calls, the arrow of the axis [a] (read after the
    call of the rotator) and the arrow of [v_screw].  Limits, labels, legend
    and title take no part in them. *)
Definition plot_interactive_rodrigues
    (theta theta_dual a_x a_y a_z v_x v_y v_z : float64) : py (ndarray * ndarray) :=
  v ← np_array v_x v_y v_z;
  a ← np_array a_x a_y a_z;
  v_screw ← rodrigues_rotation v a (DualNumber.mk theta theta_dual);
  a_drawn ← load a;
  mret (a_drawn, v_screw).

(** [plot_interactive_rodrigues_hamilton], likewise. *)
Definition plot_interactive_rodrigues_hamilton
    (theta d a_x a_y a_z v_x v_y v_z : float64) : py (ndarray * ndarray) :=
  v ← np_array v_x v_y v_z;
  a ← np_array a_x a_y a_z;
  v_screw ← rodrigues_hamilton_rotation v a theta d;
  a_drawn ← load a;
  mret (a_drawn, v_screw).

(** The references of the arrays [v] and [a] that a plotting caller makes in
    the store [h], and the store when it calls the rotator. *)
Definition plot_vec_ref (h : heap) : loc := fresh (dom h).

Definition plot_axis_ref (h : heap) (V : ndarray) : loc :=
  fresh (dom (<[plot_vec_ref h := V]> h)).

Definition plot_store (h : heap) (V A : ndarray) : heap :=
  <[plot_axis_ref h V := A]> (<[plot_vec_ref h := V]> h).

(** * Proofs *)

(** ** Finite arithmetic *)

Lemma fdiv_fin (a b : R) : b <> 0 -> (Fin a / Fin b)%fl = Fin (a / b).
Proof. intros Hb. unfold fdiv. destruct (Req_EM_T b 0); [contradiction | reflexivity]. Qed.

Lemma fdiv_zero_zero : (Fin 0 / Fin 0)%fl = NaN.
Proof.
  unfold fdiv. destruct (Req_EM_T 0 0) as [_ | H]; [reflexivity | now destruct H].
Qed.

Lemma np_sqrt_fin (a : R) : 0 <= a -> np_sqrt (Fin a) = Fin (sqrt a).
Proof. intros Ha. unfold np_sqrt. destruct (Rlt_dec a 0); [lra | reflexivity]. Qed.

Lemma half_fin (theta : R) : (Fin theta / f2)%fl = Fin (theta / 2).
Proof. apply fdiv_fin. lra. Qed.

(** ** Vectors *)

Lemma vec_eq (u w : vec) : vx u = vx w -> vy u = vy w -> vz u = vz w -> u = w.
Proof. destruct u, w; simpl; intros -> -> ->; reflexivity. Qed.

Lemma arr_inj (u w : vec) : arr u = arr w -> u = w.
Proof. destruct u, w; unfold arr; simpl; intros H; injection H as -> -> ->; reflexivity. Qed.

Lemma vdot_self_nonneg (u : vec) : 0 <= vdot u u.
Proof. unfold vdot. nra. Qed.

Lemma vdot_self_zero (u : vec) : vdot u u = 0 -> u = vzero.
Proof.
  unfold vdot. intros H. apply vec_eq; simpl; nra.
Qed.

Lemma vnorm_nonneg (u : vec) : 0 <= vnorm u.
Proof. apply sqrt_pos. Qed.

Lemma vnorm_sqr (u : vec) : vnorm u * vnorm u = vdot u u.
Proof. apply sqrt_sqrt, vdot_self_nonneg. Qed.

Lemma vnorm_zero (u : vec) : vnorm u = 0 -> u = vzero.
Proof.
  intros H. apply vdot_self_zero. rewrite <- vnorm_sqr, H. lra.
Qed.

Lemma vnorm_neq0 (u : vec) : u <> vzero -> vnorm u <> 0.
Proof. intros Hu H. apply Hu, vnorm_zero, H. Qed.

Lemma vnorm_pos (u : vec) : u <> vzero -> 0 < vnorm u.
Proof.
  intros Hu. pose proof (vnorm_nonneg u). pose proof (vnorm_neq0 u Hu). lra.
Qed.

Lemma vnorm_unit (u : vec) : vnorm u = 1 <-> vdot u u = 1.
Proof.
  split; intros H.
  - rewrite <- vnorm_sqr, H. lra.
  - unfold vnorm. rewrite H. apply sqrt_1.
Qed.

Lemma unit_nonzero (u : vec) : vnorm u = 1 -> u <> vzero.
Proof.
  intros H ->. unfold vnorm, vdot, vzero in H; simpl in H.
  replace (0 * 0 + 0 * 0 + 0 * 0) with 0 in H by ring. rewrite sqrt_0 in H. lra.
Qed.

Lemma direction_unit_dot (u : vec) : u <> vzero -> vdot (direction u) (direction u) = 1.
Proof.
  intros Hu. pose proof (vnorm_neq0 u Hu) as Hn. pose proof (vnorm_sqr u) as Hs.
  transitivity ((/ vnorm u * / vnorm u) * vdot u u).
  - unfold direction, vscale, vdot; simpl. ring.
  - rewrite <- Hs. field. exact Hn.
Qed.

Lemma direction_of_unit (u : vec) : vnorm u = 1 -> direction u = u.
Proof.
  intros H. unfold direction. rewrite H. apply vec_eq; simpl; field.
Qed.

Lemma direction_scale (c : R) (u : vec) :
  0 < c -> u <> vzero -> direction (vscale c u) = direction u.
Proof.
  intros Hc Hu. pose proof (vnorm_pos u Hu) as Hn.
  assert (Hcn : vnorm (vscale c u) = c * vnorm u).
  { unfold vnorm at 1. replace (vdot (vscale c u) (vscale c u)) with ((c * vnorm u) * (c * vnorm u)).
    - apply sqrt_square. nra.
    - unfold vscale, vdot; simpl.
      transitivity (c * c * (vnorm u * vnorm u)); [ring|]. rewrite vnorm_sqr. unfold vdot. ring. }
  unfold direction. rewrite Hcn. apply vec_eq; simpl; field; lra.
Qed.

Lemma rotate_vector_fin (l0 l1 l2 l3 : R) (v : vec) :
  Quaternion.rotate_vector (Quaternion.mk (Fin l0) (Fin l1) (Fin l2) (Fin l3)) (arr v)
  = arr (qrot l0 l1 l2 l3 v).
Proof. reflexivity. Qed.

Lemma double_half_angle (theta : R) :
  cos theta = 1 - 2 * sin (theta / 2) * sin (theta / 2)
  /\ sin theta = 2 * sin (theta / 2) * cos (theta / 2)
  /\ sin (theta / 2) * sin (theta / 2) + cos (theta / 2) * cos (theta / 2) = 1.
Proof.
  assert (H2 : theta = 2 * (theta / 2)) by field.
  repeat split.
  - rewrite H2 at 1. apply cos_2a_sin.
  - rewrite H2 at 1. apply sin_2a.
  - exact (sin2_cos2 (theta / 2)).
Qed.

Lemma qrot_half_angle (a v : vec) (theta : R) :
  vdot a a = 1 ->
  qrot (cos (theta / 2)) (vx a * sin (theta / 2)) (vy a * sin (theta / 2))
       (vz a * sin (theta / 2)) v
  = rodrigues a v theta.
Proof.
  intros Ha. destruct (double_half_angle theta) as (Hc & Hs & _).
  unfold rodrigues. rewrite Hc, Hs.
  generalize (sin (theta / 2)) (cos (theta / 2)). intros s c.
  destruct a as [a1 a2 a3], v as [v1 v2 v3]. unfold vdot in *; simpl in *.
  apply vec_eq; simpl; nsatz.
Qed.

(** ** Running the store computations *)

Lemma norm_arr (u : vec) : np_linalg_norm (arr u) = Fin (vnorm u).
Proof.
  unfold np_linalg_norm. change (np_dot (arr u) (arr u)) with (Fin (vdot u u)).
  apply np_sqrt_fin, vdot_self_nonneg.
Qed.

Lemma arr_div_arr (u : vec) (n : R) :
  n <> 0 -> arr_div (arr u) (Fin n) = arr (vscale (/ n) u).
Proof.
  intros Hn. unfold arr_div, arr; cbn [item0 item1 item2].
  rewrite !fdiv_fin by exact Hn.
  f_equal; f_equal; cbn [vscale vx vy vz]; unfold Rdiv; ring.
Qed.

(** The in-place division of a nonzero axis leaves its direction. *)
Lemma axis_after_nonzero (a : vec) :
  a <> vzero -> axis_after (arr a) = arr (direction a).
Proof.
  intros Ha. unfold axis_after. rewrite norm_arr. apply arr_div_arr, vnorm_neq0, Ha.
Qed.

(** The in-place division of the zero axis leaves NaN in each item. *)
Lemma axis_after_zero : axis_after (arr vzero) = nan_array.
Proof.
  unfold axis_after. rewrite norm_arr. unfold vnorm, vdot, vzero; simpl.
  replace (0 * 0 + 0 * 0 + 0 * 0) with 0 by ring. rewrite sqrt_0.
  unfold arr_div, arr; cbn [item0 item1 item2 vx vy vz].
  rewrite fdiv_zero_zero. reflexivity.
Qed.

Section Run.
Context (h : heap) (v a : loc) (v0 a0 : ndarray).
Hypothesis Hv : h !! v = Some v0.
Hypothesis Ha : h !! a = Some a0.

Lemma lookup_after_axis : <[a := (axis_after a0)]> h !! a = Some (axis_after a0).
Proof. apply lookup_insert_eq. Qed.

Lemma lookup_after_vec : <[a := (axis_after a0)]> h !! v = Some (vec_after v a v0 a0).
Proof.
  unfold vec_after. destruct (decide (v = a)) as [-> | Hne].
  - apply lookup_insert_eq.
  - rewrite lookup_insert_ne by congruence. exact Hv.
Qed.

Lemma run_rodrigues_rotation (theta_dual : DualNumber.t) :
  rodrigues_rotation v a theta_dual h
  = Some (arr_add
            (arr_add
               (arr_add (arr_scale (vec_after v a v0 a0) (np_cos (DualNumber.real theta_dual)))
                        (arr_scale (np_cross (axis_after a0) (vec_after v a v0 a0)) (np_sin (DualNumber.real theta_dual))))
               (arr_scale (arr_scale (axis_after a0) (np_dot (axis_after a0) (vec_after v a v0 a0)))
                          (f1 - np_cos (DualNumber.real theta_dual))%fl))
            (scalar_times (DualNumber.dual theta_dual) (axis_after a0)),
          <[a := (axis_after a0)]> h).
Proof.
  unfold rodrigues_rotation, mbind, py_bind, mret, py_ret, idiv, load, store, mbind, py_bind.
  rewrite !Ha. fold (axis_after a0). rewrite lookup_after_axis, lookup_after_vec. reflexivity.
Qed.

Lemma run_rodrigues_hamilton_rotation (theta d : float64) :
  rodrigues_hamilton_rotation v a theta d h
  = Some (arr_add
            (Quaternion.rotate_vector
               (Quaternion.normalize
                  (Quaternion.mk (np_cos (theta / f2)%fl)
                     (item0 (axis_after a0) * np_sin (theta / f2))%fl
                     (item1 (axis_after a0) * np_sin (theta / f2))%fl
                     (item2 (axis_after a0) * np_sin (theta / f2))%fl))
               (vec_after v a v0 a0))
            (scalar_times d (axis_after a0)),
          <[a := (axis_after a0)]> h).
Proof.
  unfold rodrigues_hamilton_rotation, mbind, py_bind, mret, py_ret, idiv, load, store,
    mbind, py_bind.
  rewrite !Ha. fold (axis_after a0). rewrite lookup_after_axis, lookup_after_vec. reflexivity.
Qed.
End Run.

(** ** The rotators on finite arrays *)

Lemma qnorm_arg_nonneg (l0 l1 l2 l3 : R) : 0 <= l0 * l0 + l1 * l1 + l2 * l2 + l3 * l3.
Proof. nra. Qed.

Lemma normalize_norm_fin (l0 l1 l2 l3 : R) :
  np_sqrt (fsquare (Fin l0) + fsquare (Fin l1) + fsquare (Fin l2) + fsquare (Fin l3))%fl
  = Fin (qnorm l0 l1 l2 l3).
Proof. apply (np_sqrt_fin _ (qnorm_arg_nonneg l0 l1 l2 l3)). Qed.

Lemma normalize_fin (l0 l1 l2 l3 : R) :
  qnorm l0 l1 l2 l3 <> 0 ->
  Quaternion.normalize (Quaternion.mk (Fin l0) (Fin l1) (Fin l2) (Fin l3))
  = Quaternion.mk (Fin (l0 / qnorm l0 l1 l2 l3)) (Fin (l1 / qnorm l0 l1 l2 l3))
                  (Fin (l2 / qnorm l0 l1 l2 l3)) (Fin (l3 / qnorm l0 l1 l2 l3)).
Proof.
  intros Hn. unfold Quaternion.normalize; cbn [Quaternion.l_0 Quaternion.l_1 Quaternion.l_2 Quaternion.l_3].
  rewrite normalize_norm_fin, !fdiv_fin by exact Hn. reflexivity.
Qed.

Lemma qnorm_zero (l0 l1 l2 l3 : R) :
  qnorm l0 l1 l2 l3 = 0 -> l0 = 0 /\ l1 = 0 /\ l2 = 0 /\ l3 = 0.
Proof.
  intros H. pose proof (sqrt_sqrt _ (qnorm_arg_nonneg l0 l1 l2 l3)) as Hs.
  fold (qnorm l0 l1 l2 l3) in Hs. rewrite H in Hs.
  repeat split; nra.
Qed.

Lemma normalize_zero_norm (l0 l1 l2 l3 : R) :
  qnorm l0 l1 l2 l3 = 0 ->
  Quaternion.normalize (Quaternion.mk (Fin l0) (Fin l1) (Fin l2) (Fin l3))
  = Quaternion.mk NaN NaN NaN NaN.
Proof.
  intros Hn. destruct (qnorm_zero _ _ _ _ Hn) as (-> & -> & -> & ->).
  unfold Quaternion.normalize; cbn [Quaternion.l_0 Quaternion.l_1 Quaternion.l_2 Quaternion.l_3].
  rewrite normalize_norm_fin, Hn, fdiv_zero_zero. reflexivity.
Qed.

(** The Rodrigues-Hamilton parameters of a unit axis have norm one. *)
Lemma qnorm_half_angle (a : vec) (theta : R) :
  vdot a a = 1 ->
  qnorm (cos (theta / 2)) (vx a * sin (theta / 2)) (vy a * sin (theta / 2))
        (vz a * sin (theta / 2)) = 1.
Proof.
  intros Ha. destruct (double_half_angle theta) as (_ & _ & Hsc).
  unfold qnorm. rewrite <- sqrt_1. f_equal.
  revert Hsc. generalize (sin (theta / 2)) (cos (theta / 2)). intros s c Hsc.
  destruct a as [a1 a2 a3]. unfold vdot in Ha; simpl in *. nsatz.
Qed.

(** Reduce the float and array operations on finite data. *)
Ltac eval_fin :=
  cbv beta iota zeta delta
    [arr arr_add arr_scale scalar_times arr_div np_cross np_dot np_cos np_sin matmul
     fadd fsub fmul fneg fsquare f1 f2 item0 item1 item2 row0 row1 row2
     DualNumber.real DualNumber.dual DualNumber.mul DualNumber.add DualNumber.sin
     DualNumber.cos
     Quaternion.rotate_vector Quaternion.to_rotation_matrix
     Quaternion.l_0 Quaternion.l_1 Quaternion.l_2 Quaternion.l_3].

Ltac eval_vec :=
  cbv beta iota zeta delta
    [screw rodrigues qrot turn orth along vadd vsub vscale vcross vdot vzero vx vy vz].

Lemma rodrigues_formula_fin (a v : vec) (theta d : R) :
  arr_add
    (arr_add
       (arr_add (arr_scale (arr v) (np_cos (Fin theta)))
                (arr_scale (np_cross (arr a) (arr v)) (np_sin (Fin theta))))
       (arr_scale (arr_scale (arr a) (np_dot (arr a) (arr v)))
                  (f1 - np_cos (Fin theta))%fl))
    (scalar_times (Fin d) (arr a))
  = arr (screw a v theta d).
Proof.
  destruct a as [a1 a2 a3], v as [v1 v2 v3]. eval_fin. eval_vec.
  f_equal; f_equal; ring.
Qed.

Lemma displacement_fin (r a : vec) (d : R) :
  arr_add (arr r) (scalar_times (Fin d) (arr a)) = arr (vadd r (vscale d a)).
Proof. reflexivity. Qed.

Section Finite.
Context (h : heap) (pv pa : loc) (v a : vec) (theta d : R).
Hypothesis Hv : h !! pv = Some (arr v).
Hypothesis Ha : h !! pa = Some (arr a).
Hypothesis Hnz : a <> vzero.

Lemma vec_after_fin : vec_after pv pa (arr v) (arr a) = arr (seen pv pa v a).
Proof.
  unfold vec_after, seen. rewrite axis_after_nonzero by exact Hnz.
  destruct (decide (pv = pa)); reflexivity.
Qed.

Lemma rodrigues_rotation_fin :
  rodrigues_rotation pv pa (DualNumber.mk (Fin theta) (Fin d)) h
  = Some (arr (screw (direction a) (seen pv pa v a) theta d),
          <[pa := arr (direction a)]> h).
Proof.
  rewrite (run_rodrigues_rotation h pv pa (arr v) (arr a) Hv Ha).
  rewrite vec_after_fin, axis_after_nonzero by exact Hnz.
  cbn [DualNumber.real DualNumber.dual]. rewrite rodrigues_formula_fin. reflexivity.
Qed.

Lemma rodrigues_hamilton_rotation_fin :
  rodrigues_hamilton_rotation pv pa (Fin theta) (Fin d) h
  = Some (arr (screw (direction a) (seen pv pa v a) theta d),
          <[pa := arr (direction a)]> h).
Proof.
  rewrite (run_rodrigues_hamilton_rotation h pv pa (arr v) (arr a) Hv Ha).
  rewrite vec_after_fin, axis_after_nonzero by exact Hnz.
  pose proof (direction_unit_dot a Hnz) as Hu.
  pose proof (qnorm_half_angle (direction a) theta Hu) as Hq.
  rewrite half_fin. cbn [arr item0 item1 item2 np_cos np_sin fmul].
  rewrite normalize_fin by (rewrite Hq; lra).
  rewrite Hq, rotate_vector_fin, !Rdiv_1_r.
  rewrite (qrot_half_angle _ _ _ Hu), displacement_fin. reflexivity.
Qed.
End Finite.

(** ** Geometry of the screw displacement *)

Section Geometry.
Context (a : vec).
Hypothesis Hu : vdot a a = 1.

Lemma rodrigues_axial (v : vec) (theta : R) :
  vdot (rodrigues a v theta) a = vdot v a.
Proof.
  destruct a as [a1 a2 a3], v as [v1 v2 v3]. revert Hu. eval_vec.
  generalize (sin theta) (cos theta). intros s c Hu'. nsatz.
Qed.

Lemma rodrigues_orth (v : vec) (theta : R) :
  orth a (rodrigues a v theta) = turn a theta (orth a v).
Proof.
  destruct a as [a1 a2 a3], v as [v1 v2 v3]. revert Hu. eval_vec.
  generalize (sin theta) (cos theta). intros s c Hu'.
  apply vec_eq; eval_vec; nsatz.
Qed.

Lemma displacement_orth (r : vec) (d : R) :
  orth a (vadd r (vscale d a)) = orth a r.
Proof.
  destruct a as [a1 a2 a3], r as [r1 r2 r3]. revert Hu. eval_vec. intros Hu'.
  apply vec_eq; eval_vec; nsatz.
Qed.

Lemma screw_axial (v : vec) (theta d : R) :
  vdot (screw a v theta d) a = vdot v a + d.
Proof.
  rewrite <- (rodrigues_axial v theta). unfold screw.
  generalize (rodrigues a v theta). intros r.
  destruct a as [a1 a2 a3], r as [r1 r2 r3]. revert Hu. eval_vec. intros Hu'. nsatz.
Qed.

Lemma screw_orth (v : vec) (theta d : R) :
  orth a (screw a v theta d) = turn a theta (orth a v).
Proof. unfold screw. rewrite displacement_orth. apply rodrigues_orth. Qed.

Lemma orth_dot (v : vec) : vdot a (orth a v) = 0.
Proof.
  destruct a as [a1 a2 a3], v as [v1 v2 v3]. revert Hu. eval_vec. intros Hu'. nsatz.
Qed.

Lemma turn_dot (p : vec) (theta : R) :
  vdot a p = 0 -> vdot (turn a theta p) (turn a theta p) = vdot p p.
Proof.
  pose proof (sin2_cos2 theta) as Hsc. unfold Rsqr in Hsc. revert Hsc.
  destruct a as [a1 a2 a3], p as [p1 p2 p3]. revert Hu. eval_vec.
  generalize (sin theta) (cos theta). intros s c Hu' Hsc Hp. nsatz.
Qed.

Lemma turn_norm (v : vec) (theta : R) :
  vnorm (turn a theta (orth a v)) = vnorm (orth a v).
Proof. unfold vnorm. rewrite turn_dot by apply orth_dot. reflexivity. Qed.
End Geometry.

Lemma screw_minus_displacement (a v : vec) (theta d : R) :
  vsub (screw a v theta d) (vscale d a) = rodrigues a v theta.
Proof. apply vec_eq; eval_vec; ring. Qed.

Lemma rodrigues_zero (a v : vec) : rodrigues a v 0 = v.
Proof.
  unfold rodrigues. rewrite cos_0, sin_0. destruct v. apply vec_eq; eval_vec; ring.
Qed.

Lemma screw_zero (a v : vec) (d : R) : screw a v 0 d = vadd v (vscale d a).
Proof. unfold screw. rewrite rodrigues_zero. reflexivity. Qed.

Lemma vadd_zero_scale (a v : vec) : vadd v (vscale 0 a) = v.
Proof. destruct v. apply vec_eq; eval_vec; ring. Qed.

(** ** One array passed as vector and as axis *)

Lemma screw_of_axis (a : vec) (theta d : R) :
  vdot a a = 1 -> screw a a theta d = vscale (1 + d) a.
Proof.
  intros Hu. destruct a as [a1 a2 a3]. revert Hu. eval_vec.
  generalize (sin theta) (cos theta). intros s c Hu.
  apply vec_eq; eval_vec; nsatz.
Qed.

(** When the caller passes one array as [v] and as [a], the vector is
    divided with the axis before the formula reads it: the result is
    [(1 + d)] times the direction of the array, whatever its length was. *)
Lemma rodrigues_rotation_same_array (h : heap) (p : loc) (a : vec) (theta d : R) :
  h !! p = Some (arr a) ->
  a <> vzero ->
  rodrigues_rotation p p (DualNumber.mk (Fin theta) (Fin d)) h
  = Some (arr (vscale (1 + d) (direction a)), <[p := arr (direction a)]> h).
Proof.
  intros Ha Hnz. rewrite (rodrigues_rotation_fin h p p a a theta d Ha Ha Hnz).
  unfold seen. destruct (decide (p = p)) as [_ | Hne]; [| contradiction].
  rewrite (screw_of_axis _ _ _ (direction_unit_dot a Hnz)). reflexivity.
Qed.

(** ** Unit axes *)

Lemma seen_distinct (pv pa : loc) (v a : vec) : pv <> pa -> seen pv pa v a = v.
Proof. intros Hne. unfold seen. destruct (decide (pv = pa)); [contradiction | reflexivity]. Qed.

Section UnitAxis.
Context (h : heap) (pv pa : loc) (v a : vec) (theta d : R).
Hypothesis Hv : h !! pv = Some (arr v).
Hypothesis Ha : h !! pa = Some (arr a).
Hypothesis Hu : vnorm a = 1.

Lemma seen_unit : seen pv pa v a = v.
Proof.
  unfold seen. rewrite direction_of_unit by exact Hu.
  destruct (decide (pv = pa)) as [Heq | _]; [| reflexivity].
  apply arr_inj. rewrite Heq, Ha in Hv. congruence.
Qed.

Lemma axis_unchanged : <[pa := arr (direction a)]> h = h.
Proof. rewrite direction_of_unit by exact Hu. apply insert_id, Ha. Qed.

Lemma rodrigues_rotation_unit :
  rodrigues_rotation pv pa (DualNumber.mk (Fin theta) (Fin d)) h
  = Some (arr (screw a v theta d), h).
Proof.
  rewrite (rodrigues_rotation_fin h pv pa v a theta d Hv Ha (unit_nonzero a Hu)).
  rewrite seen_unit, axis_unchanged, direction_of_unit by exact Hu. reflexivity.
Qed.

Lemma rodrigues_hamilton_rotation_unit :
  rodrigues_hamilton_rotation pv pa (Fin theta) (Fin d) h
  = Some (arr (screw a v theta d), h).
Proof.
  rewrite (rodrigues_hamilton_rotation_fin h pv pa v a theta d Hv Ha (unit_nonzero a Hu)).
  rewrite seen_unit, axis_unchanged, direction_of_unit by exact Hu. reflexivity.
Qed.
End UnitAxis.

Lemma unit_z : vnorm (V3 0 0 1) = 1.
Proof. apply vnorm_unit. eval_vec. ring. Qed.

Lemma nonzero_x2 : V3 2 0 0 <> vzero.
Proof. intros H. injection H as H. lra. Qed.

Lemma half_pi_range : 0 <= PI / 2 <= 2 * PI.
Proof. pose proof PI_RGT_0. lra. Qed.

(** * The claims *)

(** C1. Cross-pipeline equivalence: for every unit axis [a], every vector
    [v], every angle [theta] in [[0, 2 pi]] and every displacement [d], the
    dual-number pipeline [rodrigues_rotation(v, a, DualNumber(theta, d))] and
    the quaternion pipeline [rodrigues_hamilton_rotation(v, a, theta, d)]
    return the same 3-vector, component-wise and exactly over the reals. *)
Theorem cross_pipeline_equivalence
    (h : heap) (pv pa : loc) (v a : vec) (theta d : R) :
  h !! pv = Some (arr v) ->
  h !! pa = Some (arr a) ->
  vnorm a = 1 ->
  0 <= theta <= 2 * PI ->
  exists r : vec,
    rodrigues_rotation pv pa (DualNumber.mk (Fin theta) (Fin d)) h = Some (arr r, h)
    /\ rodrigues_hamilton_rotation pv pa (Fin theta) (Fin d) h = Some (arr r, h).
Proof.
  intros Hv Ha Hu _. exists (screw a v theta d). split.
  - apply rodrigues_rotation_unit; assumption.
  - apply rodrigues_hamilton_rotation_unit; assumption.
Qed.

Lemma cross_pipeline_equivalence_witness :
  exists r : vec,
    rodrigues_rotation 1%positive 2%positive (DualNumber.mk (Fin (PI / 2)) (Fin 1)) store_unit
    = Some (arr r, store_unit)
    /\ rodrigues_hamilton_rotation 1%positive 2%positive (Fin (PI / 2)) (Fin 1) store_unit
       = Some (arr r, store_unit).
Proof.
  apply (cross_pipeline_equivalence store_unit 1%positive 2%positive (V3 1 0 0) (V3 0 0 1)).
  - reflexivity.
  - reflexivity.
  - exact unit_z.
  - exact half_pi_range.
Defined.

(** C8. Pure translation and identity: for every vector [v], every unit
    axis [a] and every displacement [d], both rotators applied with angle
    [theta = 0] return exactly [v + d*a]; with [d = 0] they return [v]
    unchanged. *)
Theorem pure_translation_and_identity
    (h : heap) (pv pa : loc) (v a : vec) (d : R) :
  h !! pv = Some (arr v) ->
  h !! pa = Some (arr a) ->
  vnorm a = 1 ->
  (rodrigues_rotation pv pa (DualNumber.mk (Fin 0) (Fin d)) h
     = Some (arr (vadd v (vscale d a)), h)
   /\ rodrigues_hamilton_rotation pv pa (Fin 0) (Fin d) h
     = Some (arr (vadd v (vscale d a)), h))
  /\ (rodrigues_rotation pv pa (DualNumber.mk (Fin 0) (Fin 0)) h = Some (arr v, h)
      /\ rodrigues_hamilton_rotation pv pa (Fin 0) (Fin 0) h = Some (arr v, h)).
Proof.
  intros Hv Ha Hu. repeat split.
  - rewrite (rodrigues_rotation_unit h pv pa v a 0 d Hv Ha Hu), screw_zero. reflexivity.
  - rewrite (rodrigues_hamilton_rotation_unit h pv pa v a 0 d Hv Ha Hu), screw_zero.
    reflexivity.
  - rewrite (rodrigues_rotation_unit h pv pa v a 0 0 Hv Ha Hu), screw_zero, vadd_zero_scale.
    reflexivity.
  - rewrite (rodrigues_hamilton_rotation_unit h pv pa v a 0 0 Hv Ha Hu), screw_zero,
      vadd_zero_scale.
    reflexivity.
Qed.

Lemma pure_translation_and_identity_witness :
  (rodrigues_rotation 1%positive 2%positive (DualNumber.mk (Fin 0) (Fin 3)) store_unit
     = Some (arr (vadd (V3 1 0 0) (vscale 3 (V3 0 0 1))), store_unit)
   /\ rodrigues_hamilton_rotation 1%positive 2%positive (Fin 0) (Fin 3) store_unit
     = Some (arr (vadd (V3 1 0 0) (vscale 3 (V3 0 0 1))), store_unit))
  /\ (rodrigues_rotation 1%positive 2%positive (DualNumber.mk (Fin 0) (Fin 0)) store_unit
        = Some (arr (V3 1 0 0), store_unit)
      /\ rodrigues_hamilton_rotation 1%positive 2%positive (Fin 0) (Fin 0) store_unit
        = Some (arr (V3 1 0 0), store_unit)).
Proof.
  apply (pure_translation_and_identity store_unit 1%positive 2%positive (V3 1 0 0) (V3 0 0 1) 3).
  - reflexivity.
  - reflexivity.
  - exact unit_z.
Defined.

(** C9. Norm preservation of the rotational part: for every vector [v],
    every unit axis [a], every angle [theta] and every displacement [d], the
    component orthogonal to [a] of either rotator's result, after the
    displacement term [d*a] has been subtracted, has the same Euclidean
    magnitude as the component of [v] orthogonal to [a]. *)
Theorem rotational_part_norm_preserved
    (h : heap) (pv pa : loc) (v a : vec) (theta d : R) :
  h !! pv = Some (arr v) ->
  h !! pa = Some (arr a) ->
  vnorm a = 1 ->
  exists r_dual r_quat : vec,
    rodrigues_rotation pv pa (DualNumber.mk (Fin theta) (Fin d)) h = Some (arr r_dual, h)
    /\ rodrigues_hamilton_rotation pv pa (Fin theta) (Fin d) h = Some (arr r_quat, h)
    /\ vnorm (orth a (vsub r_dual (vscale d a))) = vnorm (orth a v)
    /\ vnorm (orth a (vsub r_quat (vscale d a))) = vnorm (orth a v).
Proof.
  intros Hv Ha Hu. pose proof (proj1 (vnorm_unit a) Hu) as Hd.
  exists (screw a v theta d), (screw a v theta d).
  split; [apply rodrigues_rotation_unit; assumption |].
  split; [apply rodrigues_hamilton_rotation_unit; assumption |].
  rewrite screw_minus_displacement, (rodrigues_orth a Hd), (turn_norm a Hd).
  split; reflexivity.
Qed.

Lemma rotational_part_norm_preserved_witness :
  exists r_dual r_quat : vec,
    rodrigues_rotation 1%positive 2%positive (DualNumber.mk (Fin (PI / 2)) (Fin 1)) store_unit
    = Some (arr r_dual, store_unit)
    /\ rodrigues_hamilton_rotation 1%positive 2%positive (Fin (PI / 2)) (Fin 1) store_unit
       = Some (arr r_quat, store_unit)
    /\ vnorm (orth (V3 0 0 1) (vsub r_dual (vscale 1 (V3 0 0 1))))
       = vnorm (orth (V3 0 0 1) (V3 1 0 0))
    /\ vnorm (orth (V3 0 0 1) (vsub r_quat (vscale 1 (V3 0 0 1))))
       = vnorm (orth (V3 0 0 1) (V3 1 0 0)).
Proof.
  apply (rotational_part_norm_preserved store_unit 1%positive 2%positive).
  - reflexivity.
  - reflexivity.
  - exact unit_z.
Defined.

(** C5, as the code has it.  Postcondition of the dual Rodrigues rotator:
    for every vector [v] and every nonzero axis (of unit direction [a]) that
    the caller holds in two different arrays, and every [DualNumber] angle,
    the dot product of the returned vector with [a] is the dot product of [v]
    with [a] plus [angle.dual], and the component of the returned vector
    orthogonal to [a] is the component of [v] orthogonal to [a] turned by
    [angle.real]; [angle.dual] enters as the translation magnitude only: the
    result is the result for the same [angle.real] and a zero dual part,
    plus [angle.dual * a]. *)
Theorem dual_rotator_postcondition
    (h : heap) (pv pa : loc) (v axis : vec) (theta d : R) :
  h !! pv = Some (arr v) ->
  h !! pa = Some (arr axis) ->
  pv <> pa ->
  axis <> vzero ->
  exists (r r0 : vec) (h' : heap),
    rodrigues_rotation pv pa (DualNumber.mk (Fin theta) (Fin d)) h = Some (arr r, h')
    /\ vdot r (direction axis) = vdot v (direction axis) + d
    /\ orth (direction axis) r = turn (direction axis) theta (orth (direction axis) v)
    /\ rodrigues_rotation pv pa (DualNumber.mk (Fin theta) (Fin 0)) h = Some (arr r0, h')
    /\ r = vadd r0 (vscale d (direction axis)).
Proof.
  intros Hv Ha Hne Hnz. pose proof (direction_unit_dot axis Hnz) as Hd.
  exists (screw (direction axis) v theta d), (screw (direction axis) v theta 0),
    (<[pa := arr (direction axis)]> h).
  rewrite !(rodrigues_rotation_fin h pv pa v axis _ _ Hv Ha Hnz), (seen_distinct _ _ _ _ Hne).
  split; [reflexivity |].
  split; [apply (screw_axial _ Hd) |].
  split; [apply (screw_orth _ Hd) |].
  split; [reflexivity |].
  apply vec_eq; eval_vec; ring.
Qed.

Lemma dual_rotator_postcondition_witness :
  exists (r r0 : vec) (h' : heap),
    rodrigues_rotation 1%positive 2%positive (DualNumber.mk (Fin 1) (Fin 5)) store_long
    = Some (arr r, h')
    /\ vdot r (direction (V3 2 0 0)) = vdot (V3 0 1 0) (direction (V3 2 0 0)) + 5
    /\ orth (direction (V3 2 0 0)) r
       = turn (direction (V3 2 0 0)) 1 (orth (direction (V3 2 0 0)) (V3 0 1 0))
    /\ rodrigues_rotation 1%positive 2%positive (DualNumber.mk (Fin 1) (Fin 0)) store_long
       = Some (arr r0, h')
    /\ r = vadd r0 (vscale 5 (direction (V3 2 0 0))).
Proof.
  apply (dual_rotator_postcondition store_long 1%positive 2%positive).
  - reflexivity.
  - reflexivity.
  - discriminate.
  - exact nonzero_x2.
Defined.

(** C10, as the code has it.  Axis scale invariance: for every vector [v]
    held in an array other than the axis arrays, every nonzero axis [a],
    every positive scalar [c], every angle and every displacement, both
    rotators return for the axis [c*a] what they return for the axis [a]:
    the result depends on the direction of the axis only. *)
Theorem axis_scale_invariance
    (h : heap) (pv pa pb : loc) (v a : vec) (c theta d : R) :
  h !! pv = Some (arr v) ->
  h !! pa = Some (arr a) ->
  h !! pb = Some (arr (vscale c a)) ->
  pv <> pa -> pv <> pb ->
  a <> vzero ->
  0 < c ->
  exists (r : vec) (ha hb : heap),
    (rodrigues_rotation pv pa (DualNumber.mk (Fin theta) (Fin d)) h = Some (arr r, ha)
     /\ rodrigues_rotation pv pb (DualNumber.mk (Fin theta) (Fin d)) h = Some (arr r, hb))
    /\ (rodrigues_hamilton_rotation pv pa (Fin theta) (Fin d) h = Some (arr r, ha)
        /\ rodrigues_hamilton_rotation pv pb (Fin theta) (Fin d) h = Some (arr r, hb)).
Proof.
  intros Hv Ha Hb Hna Hnb Hnz Hc.
  assert (Hnz' : vscale c a <> vzero).
  { intros H0. apply Hnz. apply vec_eq; simpl.
    all: destruct a as [a1 a2 a3]; unfold vscale, vzero in H0; simpl in *;
      injection H0 as H1 H2 H3; nra. }
  exists (screw (direction a) v theta d), (<[pa := arr (direction a)]> h),
    (<[pb := arr (direction a)]> h).
  rewrite (rodrigues_rotation_fin h pv pa v a _ _ Hv Ha Hnz).
  rewrite (rodrigues_rotation_fin h pv pb v _ _ _ Hv Hb Hnz').
  rewrite (rodrigues_hamilton_rotation_fin h pv pa v a _ _ Hv Ha Hnz).
  rewrite (rodrigues_hamilton_rotation_fin h pv pb v _ _ _ Hv Hb Hnz').
  rewrite !(direction_scale c a Hc Hnz), !seen_distinct by assumption.
  repeat split.
Qed.

Lemma axis_scale_invariance_witness :
  exists (r : vec) (ha hb : heap),
    (rodrigues_rotation 1%positive 2%positive (DualNumber.mk (Fin 1) (Fin 5)) store_long
       = Some (arr r, ha)
     /\ rodrigues_rotation 1%positive 3%positive (DualNumber.mk (Fin 1) (Fin 5)) store_long
       = Some (arr r, hb))
    /\ (rodrigues_hamilton_rotation 1%positive 2%positive (Fin 1) (Fin 5) store_long
          = Some (arr r, ha)
        /\ rodrigues_hamilton_rotation 1%positive 3%positive (Fin 1) (Fin 5) store_long
          = Some (arr r, hb)).
Proof.
  apply (axis_scale_invariance store_long 1%positive 2%positive 3%positive
           (V3 0 1 0) (V3 2 0 0) 3).
  - reflexivity.
  - reflexivity.
  - reflexivity.
  - discriminate.
  - discriminate.
  - exact nonzero_x2.
  - lra.
Defined.

(** ** NaN is absorbing *)

Lemma fmul_nan_l (x : float64) : (NaN * x)%fl = NaN.
Proof. destruct x; reflexivity. Qed.

Lemma fmul_nan_r (x : float64) : (x * NaN)%fl = NaN.
Proof. destruct x; reflexivity. Qed.

Lemma fadd_nan_l (x : float64) : (NaN + x)%fl = NaN.
Proof. destruct x; reflexivity. Qed.

Lemma fadd_nan_r (x : float64) : (x + NaN)%fl = NaN.
Proof. destruct x; reflexivity. Qed.

Lemma fsub_nan_l (x : float64) : (NaN - x)%fl = NaN.
Proof. destruct x; reflexivity. Qed.

Lemma fsub_nan_r (x : float64) : (x - NaN)%fl = NaN.
Proof. destruct x; reflexivity. Qed.

Lemma fdiv_nan_l (x : float64) : (NaN / x)%fl = NaN.
Proof. destruct x; reflexivity. Qed.

Lemma fdiv_nan_r (x : float64) : (x / NaN)%fl = NaN.
Proof. destruct x; reflexivity. Qed.

Lemma np_sqrt_nan : np_sqrt NaN = NaN.
Proof. reflexivity. Qed.

Create Rewrite HintDb nan.
#[local] Hint Rewrite fmul_nan_l fmul_nan_r fadd_nan_l fadd_nan_r fsub_nan_l fsub_nan_r
  fdiv_nan_l fdiv_nan_r np_sqrt_nan : nan.

Ltac eval_nan :=
  cbv beta iota zeta delta
    [nan_array arr_add arr_scale scalar_times np_cross np_dot matmul fsquare
     item0 item1 item2 row0 row1 row2
     Quaternion.normalize Quaternion.rotate_vector Quaternion.to_rotation_matrix
     Quaternion.l_0 Quaternion.l_1 Quaternion.l_2 Quaternion.l_3];
  autorewrite with nan.

(** Rodrigues' formula about an axis of NaN items. *)
Lemma rodrigues_formula_nan (v : ndarray) (c s k d : float64) :
  arr_add
    (arr_add
       (arr_add (arr_scale v c) (arr_scale (np_cross nan_array v) s))
       (arr_scale (arr_scale nan_array (np_dot nan_array v)) k))
    (scalar_times d nan_array)
  = nan_array.
Proof. eval_nan. reflexivity. Qed.

(** The quaternion rotation about an axis of NaN items. *)
Lemma hamilton_formula_nan (v : ndarray) (l0 s d : float64) :
  arr_add
    (Quaternion.rotate_vector
       (Quaternion.normalize
          (Quaternion.mk l0 (item0 nan_array * s)%fl (item1 nan_array * s)%fl
                         (item2 nan_array * s)%fl))
       v)
    (scalar_times d nan_array)
  = nan_array.
Proof. eval_nan. reflexivity. Qed.

Section ZeroAxis.
Context (h : heap) (pv pa : loc) (v : ndarray).
Hypothesis Hv : h !! pv = Some v.
Hypothesis Ha : h !! pa = Some (arr vzero).

Lemma rodrigues_rotation_zero_axis (theta_dual : DualNumber.t) :
  rodrigues_rotation pv pa theta_dual h = Some (nan_array, <[pa := nan_array]> h).
Proof.
  rewrite (run_rodrigues_rotation h pv pa v (arr vzero) Hv Ha), axis_after_zero.
  rewrite rodrigues_formula_nan. reflexivity.
Qed.

Lemma rodrigues_hamilton_rotation_zero_axis (theta d : float64) :
  rodrigues_hamilton_rotation pv pa theta d h = Some (nan_array, <[pa := nan_array]> h).
Proof.
  rewrite (run_rodrigues_hamilton_rotation h pv pa v (arr vzero) Hv Ha), axis_after_zero.
  rewrite hamilton_formula_nan. reflexivity.
Qed.
End ZeroAxis.

(** C2, as the code has it.  With the axis [(0, 0, 0)] neither entry point
    signals an error: the division of the axis by its norm is the float
    division [0/0], and each entry point returns the array
    [(nan, nan, nan)], for every vector, angle and displacement, leaving
    [(nan, nan, nan)] in the array that the caller passed as axis. *)
Theorem zero_axis_returns_nan
    (h : heap) (pv pa : loc) (v : ndarray) (theta_dual : DualNumber.t)
    (theta d : float64) :
  h !! pv = Some v ->
  h !! pa = Some (arr vzero) ->
  rodrigues_rotation pv pa theta_dual h = Some (nan_array, <[pa := nan_array]> h)
  /\ rodrigues_hamilton_rotation pv pa theta d h = Some (nan_array, <[pa := nan_array]> h).
Proof.
  intros Hv Ha. split.
  - apply (rodrigues_rotation_zero_axis h pv pa v Hv Ha).
  - apply (rodrigues_hamilton_rotation_zero_axis h pv pa v Hv Ha).
Qed.

Lemma zero_axis_returns_nan_witness :
  rodrigues_rotation 1%positive 2%positive (DualNumber.mk (Fin 1) (Fin 1)) store_zero
  = Some (nan_array, <[2%positive := nan_array]> store_zero)
  /\ rodrigues_hamilton_rotation 1%positive 2%positive (Fin 1) (Fin 1) store_zero
     = Some (nan_array, <[2%positive := nan_array]> store_zero).
Proof.
  apply (zero_axis_returns_nan store_zero 1%positive 2%positive (arr (V3 1 0 0))).
  - reflexivity.
  - reflexivity.
Defined.

(** C2 fails as stated: with [v = (1, 0, 0)], the axis [(0, 0, 0)], angle 1
    and displacement 1 both entry points return, and what they return is an
    array that contains NaN. *)
Lemma zero_axis_counterexample :
  (exists (r : ndarray) (h' : heap),
      rodrigues_rotation 1%positive 2%positive (DualNumber.mk (Fin 1) (Fin 1)) store_zero
      = Some (r, h')
      /\ has_nan r = true)
  /\ (exists (r : ndarray) (h' : heap),
         rodrigues_hamilton_rotation 1%positive 2%positive (Fin 1) (Fin 1) store_zero
         = Some (r, h')
         /\ has_nan r = true).
Proof.
  assert (Hv : store_zero !! 1%positive = Some (arr (V3 1 0 0))) by reflexivity.
  assert (Ha : store_zero !! 2%positive = Some (arr vzero)) by reflexivity.
  split; exists nan_array, (<[2%positive := nan_array]> store_zero); split; try reflexivity.
  - apply (rodrigues_rotation_zero_axis _ _ _ _ Hv Ha).
  - apply (rodrigues_hamilton_rotation_zero_axis _ _ _ _ Hv Ha).
Qed.

(** ** The axis after a call *)

Lemma vnorm_x2 : vnorm (V3 2 0 0) = 2.
Proof.
  unfold vnorm. replace (vdot (V3 2 0 0) (V3 2 0 0)) with (2 * 2) by (eval_vec; ring).
  apply sqrt_square. lra.
Qed.

Lemma direction_x2 : direction (V3 2 0 0) = V3 1 0 0.
Proof. unfold direction. rewrite vnorm_x2. apply vec_eq; eval_vec; field. Qed.

Lemma direction_fixed (a : vec) : a <> vzero -> direction a = a -> vnorm a = 1.
Proof.
  intros Hnz Heq. apply vnorm_unit. rewrite <- Heq. apply direction_unit_dot, Hnz.
Qed.

(** C3, as the code has it.  Both rotators execute
    [a /= np.linalg.norm(a)], which divides in the array the caller passed:
    after a call with a nonzero axis that array holds the normalized axis
    [a / ||a||] and every other array holds what it held.  The axis
    argument has the same three components after the call as before it
    exactly when it had unit length. *)
Theorem axis_normalized_in_place
    (h : heap) (pv pa : loc) (v a : vec) (theta d : R) :
  h !! pv = Some (arr v) ->
  h !! pa = Some (arr a) ->
  a <> vzero ->
  exists (r : vec) (h' : heap),
    rodrigues_rotation pv pa (DualNumber.mk (Fin theta) (Fin d)) h = Some (arr r, h')
    /\ rodrigues_hamilton_rotation pv pa (Fin theta) (Fin d) h = Some (arr r, h')
    /\ h' = <[pa := arr (direction a)]> h
    /\ (h' !! pa = h !! pa <-> vnorm a = 1).
Proof.
  intros Hv Ha Hnz.
  exists (screw (direction a) (seen pv pa v a) theta d), (<[pa := arr (direction a)]> h).
  split; [apply rodrigues_rotation_fin; assumption |].
  split; [apply rodrigues_hamilton_rotation_fin; assumption |].
  split; [reflexivity |].
  rewrite lookup_insert_eq, Ha. split.
  - intros Heq. apply (direction_fixed a Hnz), arr_inj. congruence.
  - intros Hu. rewrite direction_of_unit by exact Hu. reflexivity.
Qed.

Lemma axis_normalized_in_place_witness :
  exists (r : vec) (h' : heap),
    rodrigues_rotation 1%positive 2%positive (DualNumber.mk (Fin 1) (Fin 5)) store_long
    = Some (arr r, h')
    /\ rodrigues_hamilton_rotation 1%positive 2%positive (Fin 1) (Fin 5) store_long
       = Some (arr r, h')
    /\ h' = <[2%positive := arr (direction (V3 2 0 0))]> store_long
    /\ (h' !! 2%positive = store_long !! 2%positive <-> vnorm (V3 2 0 0) = 1).
Proof.
  apply (axis_normalized_in_place store_long 1%positive 2%positive (V3 0 1 0)).
  - reflexivity.
  - reflexivity.
  - exact nonzero_x2.
Defined.

(** C3 fails as stated: a call with [v = (0, 1, 0)] and the axis
    [(2, 0, 0)] leaves [(1, 0, 0)] in the caller's axis array, with either
    rotator. *)
Lemma axis_mutated_counterexample :
  store_long !! 2%positive = Some (arr (V3 2 0 0))
  /\ (exists (r : ndarray) (h' : heap),
         rodrigues_rotation 1%positive 2%positive (DualNumber.mk (Fin 0) (Fin 0)) store_long
         = Some (r, h')
         /\ h' !! 2%positive = Some (arr (V3 1 0 0))
         /\ h' !! 2%positive <> store_long !! 2%positive)
  /\ (exists (r : ndarray) (h' : heap),
         rodrigues_hamilton_rotation 1%positive 2%positive (Fin 0) (Fin 0) store_long
         = Some (r, h')
         /\ h' !! 2%positive = Some (arr (V3 1 0 0))
         /\ h' !! 2%positive <> store_long !! 2%positive).
Proof.
  assert (Hv : store_long !! 1%positive = Some (arr (V3 0 1 0))) by reflexivity.
  assert (Ha : store_long !! 2%positive = Some (arr (V3 2 0 0))) by reflexivity.
  assert (Hne : Some (arr (V3 1 0 0)) <> Some (arr (V3 2 0 0))).
  { intros H. injection H as H. lra. }
  split; [exact Ha |].
  split.
  - eexists _, _. split.
    + apply (rodrigues_rotation_fin _ _ _ _ _ 0 0 Hv Ha nonzero_x2).
    + rewrite lookup_insert_eq, direction_x2, Ha. split; [reflexivity | exact Hne].
  - eexists _, _. split.
    + apply (rodrigues_hamilton_rotation_fin _ _ _ _ _ 0 0 Hv Ha nonzero_x2).
    + rewrite lookup_insert_eq, direction_x2, Ha. split; [reflexivity | exact Hne].
Qed.

(** ** Quaternion.normalize *)

(** C4, as the code has it.  [Quaternion.normalize] signals no error.  For
    a quaternion of zero norm, which is the one with four zero components,
    each division is the float division [0/0] and the result is the
    quaternion [(nan, nan, nan, nan)]; for every quaternion of nonzero norm
    the result is a new quaternion with each component divided by the
    norm. *)
Theorem normalize_divides_or_nan (l0 l1 l2 l3 : R) :
  (qnorm l0 l1 l2 l3 = 0 ->
   Quaternion.normalize (Quaternion.mk (Fin l0) (Fin l1) (Fin l2) (Fin l3))
   = Quaternion.mk NaN NaN NaN NaN)
  /\ (qnorm l0 l1 l2 l3 <> 0 ->
      Quaternion.normalize (Quaternion.mk (Fin l0) (Fin l1) (Fin l2) (Fin l3))
      = Quaternion.mk (Fin (l0 / qnorm l0 l1 l2 l3)) (Fin (l1 / qnorm l0 l1 l2 l3))
                      (Fin (l2 / qnorm l0 l1 l2 l3)) (Fin (l3 / qnorm l0 l1 l2 l3))).
Proof.
  split.
  - apply normalize_zero_norm.
  - apply normalize_fin.
Qed.

Lemma qnorm_0000 : qnorm 0 0 0 0 = 0.
Proof.
  unfold qnorm. replace (0 * 0 + 0 * 0 + 0 * 0 + 0 * 0) with 0 by ring. apply sqrt_0.
Qed.

Lemma qnorm_3040 : qnorm 3 0 4 0 = 5.
Proof.
  unfold qnorm. replace (3 * 3 + 0 * 0 + 4 * 4 + 0 * 0) with (5 * 5) by ring.
  apply sqrt_square. lra.
Qed.

Lemma normalize_divides_or_nan_witness :
  Quaternion.normalize (Quaternion.mk (Fin 0) (Fin 0) (Fin 0) (Fin 0))
  = Quaternion.mk NaN NaN NaN NaN
  /\ Quaternion.normalize (Quaternion.mk (Fin 3) (Fin 0) (Fin 4) (Fin 0))
     = Quaternion.mk (Fin (3 / qnorm 3 0 4 0)) (Fin (0 / qnorm 3 0 4 0))
                     (Fin (4 / qnorm 3 0 4 0)) (Fin (0 / qnorm 3 0 4 0)).
Proof.
  split.
  - apply (proj1 (normalize_divides_or_nan 0 0 0 0)). exact qnorm_0000.
  - apply (proj2 (normalize_divides_or_nan 3 0 4 0)). rewrite qnorm_3040. lra.
Defined.

(** C4 fails as stated: [Quaternion(0, 0, 0, 0).normalize()] returns the
    quaternion [(nan, nan, nan, nan)]. *)
Lemma normalize_zero_counterexample :
  Quaternion.normalize (Quaternion.mk (Fin 0) (Fin 0) (Fin 0) (Fin 0))
  = Quaternion.mk NaN NaN NaN NaN.
Proof. apply normalize_zero_norm, qnorm_0000. Qed.

(** ** One array as vector and as axis *)

(** C5 fails as stated: when the caller passes one array holding
    [(2, 0, 0)] as [v] and as the axis, with angle 0 and dual part 3, the
    vector is divided with the axis before the formula reads it and the
    result is [(4, 0, 0)]: its dot product with the direction [(1, 0, 0)] is
    4, where the dot product of [v] with the direction plus the dual part
    is 5. *)
Lemma dual_rotator_same_array_counterexample :
  store_long !! 2%positive = Some (arr (V3 2 0 0))
  /\ exists h' : heap,
       rodrigues_rotation 2%positive 2%positive (DualNumber.mk (Fin 0) (Fin 3)) store_long
       = Some (arr (V3 4 0 0), h')
       /\ vdot (V3 4 0 0) (direction (V3 2 0 0))
          <> vdot (V3 2 0 0) (direction (V3 2 0 0)) + 3.
Proof.
  assert (Ha : store_long !! 2%positive = Some (arr (V3 2 0 0))) by reflexivity.
  split; [exact Ha |].
  exists (<[2%positive := arr (V3 1 0 0)]> store_long). split.
  - rewrite (rodrigues_rotation_same_array _ _ _ 0 3 Ha nonzero_x2), direction_x2.
    replace (vscale (1 + 3) (V3 1 0 0)) with (V3 4 0 0) by (apply vec_eq; eval_vec; ring).
    reflexivity.
  - rewrite direction_x2. eval_vec. lra.
Qed.

(** C10 fails as stated: with the array at reference 2, holding
    [(2, 0, 0)], as vector, angle 1 and displacement 5, the call whose axis
    is that same array returns [(6, 0, 0)] and the call whose axis is the
    array holding [3 * (2, 0, 0)] returns [(7, 0, 0)]. *)
Lemma axis_scale_same_array_counterexample :
  store_long !! 2%positive = Some (arr (V3 2 0 0))
  /\ store_long !! 3%positive = Some (arr (vscale 3 (V3 2 0 0)))
  /\ exists ha hb : heap,
       rodrigues_rotation 2%positive 2%positive (DualNumber.mk (Fin 1) (Fin 5)) store_long
       = Some (arr (V3 6 0 0), ha)
       /\ rodrigues_rotation 2%positive 3%positive (DualNumber.mk (Fin 1) (Fin 5)) store_long
          = Some (arr (V3 7 0 0), hb)
       /\ arr (V3 6 0 0) <> arr (V3 7 0 0).
Proof.
  assert (Ha : store_long !! 2%positive = Some (arr (V3 2 0 0))) by reflexivity.
  assert (Hb : store_long !! 3%positive = Some (arr (vscale 3 (V3 2 0 0)))) by reflexivity.
  assert (Hnz : vscale 3 (V3 2 0 0) <> vzero).
  { intros H. injection H as H _ _. lra. }
  split; [exact Ha |]. split; [exact Hb |].
  exists (<[2%positive := arr (V3 1 0 0)]> store_long),
    (<[3%positive := arr (V3 1 0 0)]> store_long).
  split; [| split].
  - rewrite (rodrigues_rotation_same_array _ _ _ 1 5 Ha nonzero_x2), direction_x2.
    replace (vscale (1 + 5) (V3 1 0 0)) with (V3 6 0 0) by (apply vec_eq; eval_vec; ring).
    reflexivity.
  - rewrite (rodrigues_rotation_fin _ _ _ _ _ 1 5 Ha Hb Hnz).
    rewrite seen_distinct by discriminate.
    rewrite (direction_scale 3 _ ltac:(lra) nonzero_x2), direction_x2.
    replace (screw (V3 1 0 0) (V3 2 0 0) 1 5) with (V3 7 0 0)
      by (apply vec_eq; eval_vec; ring).
    reflexivity.
  - intros H. injection H as H. lra.
Qed.

(** ** Dual numbers *)

(** C6. DualNumber multiplication: for every pair of dual numbers [x] and
    [y] the product has real part [x.real * y.real] and dual part
    [x.real * y.dual + x.dual * y.real]; no [dual * dual] term is kept, so
    that the square of the unit [epsilon = DualNumber(0, 1)] is zero; the
    operation is defined on every pair and builds a new value. *)
Theorem dual_number_multiplication (x y : DualNumber.t) (a a' b b' : R) :
  DualNumber.mul x y
  = DualNumber.mk (DualNumber.real x * DualNumber.real y)%fl
                  (DualNumber.real x * DualNumber.dual y
                   + DualNumber.dual x * DualNumber.real y)%fl
  /\ DualNumber.mul (DualNumber.mk (Fin a) (Fin a')) (DualNumber.mk (Fin b) (Fin b'))
     = DualNumber.mk (Fin (a * b)) (Fin (a * b' + a' * b))
  /\ DualNumber.mul (DualNumber.mk (Fin 0) (Fin 1)) (DualNumber.mk (Fin 0) (Fin 1))
     = DualNumber.mk (Fin 0) (Fin 0).
Proof.
  split; [reflexivity |]. split; [reflexivity |].
  eval_fin. f_equal; f_equal; ring.
Qed.

(** C7. Dual sine and cosine: for every dual number [x], [sin(x)] is the
    dual number [(sin(x.real), x.dual * cos(x.real))] and [cos(x)] is
    [(cos(x.real), -x.dual * sin(x.real))]: at a finite [x] the dual parts
    are [x.dual] times the derivative of the sine and of the cosine at
    [x.real], the first-order term of the Taylor expansion. *)
Theorem dual_sine_and_cosine (x : DualNumber.t) (r e : R) :
  (DualNumber.sin x
   = DualNumber.mk (np_sin (DualNumber.real x))
                   (DualNumber.dual x * np_cos (DualNumber.real x))%fl
   /\ DualNumber.cos x
      = DualNumber.mk (np_cos (DualNumber.real x))
                      (- DualNumber.dual x * np_sin (DualNumber.real x))%fl)
  /\ (DualNumber.sin (DualNumber.mk (Fin r) (Fin e))
      = DualNumber.mk (Fin (sin r)) (Fin (e * cos r))
      /\ DualNumber.cos (DualNumber.mk (Fin r) (Fin e))
         = DualNumber.mk (Fin (cos r)) (Fin (- e * sin r)))
  /\ (exists s' c' : R,
         derivable_pt_lim sin r s' /\ derivable_pt_lim cos r c'
         /\ DualNumber.dual (DualNumber.sin (DualNumber.mk (Fin r) (Fin e))) = Fin (e * s')
         /\ DualNumber.dual (DualNumber.cos (DualNumber.mk (Fin r) (Fin e))) = Fin (e * c')).
Proof.
  split; [split; reflexivity |]. split; [split; reflexivity |].
  exists (cos r), (- sin r).
  split; [apply derivable_pt_lim_sin |]. split; [apply derivable_pt_lim_cos |].
  split; [reflexivity |].
  eval_fin. f_equal. ring.
Qed.

(** * Further properties *)

(** ** Float arithmetic *)

Lemma fadd_comm (x y : float64) : (x + y)%fl = (y + x)%fl.
Proof.
  destruct x as [a | s |], y as [b | t |]; simpl; try reflexivity.
  - f_equal. ring.
  - destruct s, t; reflexivity.
Qed.

Lemma fmul_comm (x y : float64) : (x * y)%fl = (y * x)%fl.
Proof.
  destruct x as [a | s |], y as [b | t |]; simpl; try reflexivity.
  - f_equal. ring.
  - destruct s, t; reflexivity.
Qed.

(** ** Dual numbers *)

(** X1. [DualNumber] addition and multiplication are commutative for all
    operands, infinities and NaN included. *)
Theorem dual_number_add_mul_comm (x y : DualNumber.t) :
  DualNumber.add x y = DualNumber.add y x
  /\ DualNumber.mul x y = DualNumber.mul y x.
Proof.
  destruct x as [xr xd], y as [yr yd]. unfold DualNumber.add, DualNumber.mul; simpl. split.
  - rewrite (fadd_comm xr yr), (fadd_comm xd yd). reflexivity.
  - rewrite (fmul_comm xr yr), (fadd_comm (xr * yd)%fl), (fmul_comm xd yr), (fmul_comm xr yd).
    reflexivity.
Qed.

(** X2. On finite operands the dual numbers form a commutative ring under
    [__add__] and [__mul__]: multiplication is associative and distributes
    over addition, [DualNumber(0, 0)] is neutral for addition and
    [DualNumber(1, 0)] for multiplication. *)
Theorem dual_number_ring_laws (a a' b b' c c' : R) :
  let x := DualNumber.mk (Fin a) (Fin a') in
  let y := DualNumber.mk (Fin b) (Fin b') in
  let z := DualNumber.mk (Fin c) (Fin c') in
  DualNumber.mul (DualNumber.mul x y) z = DualNumber.mul x (DualNumber.mul y z)
  /\ DualNumber.add (DualNumber.add x y) z = DualNumber.add x (DualNumber.add y z)
  /\ DualNumber.mul x (DualNumber.add y z)
     = DualNumber.add (DualNumber.mul x y) (DualNumber.mul x z)
  /\ DualNumber.add x (DualNumber.mk (Fin 0) (Fin 0)) = x
  /\ DualNumber.mul x (DualNumber.mk (Fin 1) (Fin 0)) = x.
Proof.
  intros x y z. subst x y z. repeat split; eval_fin; f_equal; f_equal; ring.
Qed.

(** X3. The dual sine and cosine satisfy the Pythagorean identity:
    [sin(x)*sin(x) + cos(x)*cos(x)] is the dual number [(1, 0)] at every
    finite [x]. *)
Theorem dual_pythagorean_identity (r e : R) :
  let x := DualNumber.mk (Fin r) (Fin e) in
  DualNumber.add (DualNumber.mul (DualNumber.sin x) (DualNumber.sin x))
                 (DualNumber.mul (DualNumber.cos x) (DualNumber.cos x))
  = DualNumber.mk (Fin 1) (Fin 0).
Proof.
  intros x. subst x. eval_fin. pose proof (sin2_cos2 r) as H. unfold Rsqr in H.
  f_equal; f_equal; [exact H | ring].
Qed.

(** X4. The dual sine and cosine satisfy the angle-addition formulas, in the
    operations of the class: [sin(x + y) = sin(x)*cos(y) + cos(x)*sin(y)] and
    [cos(x + y) + sin(x)*sin(y) = cos(x)*cos(y)], at finite [x] and [y]. *)
Theorem dual_angle_addition (r e t f : R) :
  let x := DualNumber.mk (Fin r) (Fin e) in
  let y := DualNumber.mk (Fin t) (Fin f) in
  DualNumber.sin (DualNumber.add x y)
  = DualNumber.add (DualNumber.mul (DualNumber.sin x) (DualNumber.cos y))
                   (DualNumber.mul (DualNumber.cos x) (DualNumber.sin y))
  /\ DualNumber.add (DualNumber.cos (DualNumber.add x y))
                    (DualNumber.mul (DualNumber.sin x) (DualNumber.sin y))
     = DualNumber.mul (DualNumber.cos x) (DualNumber.cos y).
Proof.
  intros x y. subst x y. eval_fin. rewrite sin_plus, cos_plus.
  split; f_equal; f_equal; ring.
Qed.

(** X5. A NaN real part of either operand makes both parts of a
    [DualNumber] product NaN, whatever the other operand is. *)
Theorem dual_number_mul_nan (x y : DualNumber.t) :
  DualNumber.real x = NaN \/ DualNumber.real y = NaN ->
  DualNumber.mul x y = DualNumber.mk NaN NaN.
Proof.
  destruct x as [xr xd], y as [yr yd]; simpl. unfold DualNumber.mul; simpl.
  intros [-> | ->]; autorewrite with nan; reflexivity.
Qed.

Lemma dual_number_mul_nan_witness :
  DualNumber.mul (DualNumber.mk NaN (Fin 1)) (DualNumber.mk (Fin 0) (Fin 0))
  = DualNumber.mk NaN NaN.
Proof. apply dual_number_mul_nan. left. reflexivity. Defined.

(** ** Quaternions *)

Lemma qnorm_sqr (l0 l1 l2 l3 : R) :
  qnorm l0 l1 l2 l3 * qnorm l0 l1 l2 l3 = l0 * l0 + l1 * l1 + l2 * l2 + l3 * l3.
Proof. apply sqrt_sqrt, qnorm_arg_nonneg. Qed.

Lemma qnorm_nonneg (l0 l1 l2 l3 : R) : 0 <= qnorm l0 l1 l2 l3.
Proof. apply sqrt_pos. Qed.

Lemma qnorm_of_unit (l0 l1 l2 l3 : R) :
  l0 * l0 + l1 * l1 + l2 * l2 + l3 * l3 = 1 -> qnorm l0 l1 l2 l3 = 1.
Proof. intros H. unfold qnorm. rewrite H. apply sqrt_1. Qed.

Lemma normalized_unit (l0 l1 l2 l3 : R) :
  qnorm l0 l1 l2 l3 <> 0 ->
  let n := qnorm l0 l1 l2 l3 in
  (l0 / n) * (l0 / n) + (l1 / n) * (l1 / n) + (l2 / n) * (l2 / n) + (l3 / n) * (l3 / n) = 1.
Proof.
  intros Hn n. pose proof (qnorm_sqr l0 l1 l2 l3) as Hs. fold n in Hs.
  transitivity ((l0 * l0 + l1 * l1 + l2 * l2 + l3 * l3) / (n * n)).
  - field. exact Hn.
  - rewrite <- Hs. field. exact Hn.
Qed.

Lemma normalize_of_unit (l0 l1 l2 l3 : R) :
  l0 * l0 + l1 * l1 + l2 * l2 + l3 * l3 = 1 ->
  Quaternion.normalize (Quaternion.mk (Fin l0) (Fin l1) (Fin l2) (Fin l3))
  = Quaternion.mk (Fin l0) (Fin l1) (Fin l2) (Fin l3).
Proof.
  intros Hu. pose proof (qnorm_of_unit _ _ _ _ Hu) as Hn.
  rewrite normalize_fin by (rewrite Hn; lra). rewrite Hn, !Rdiv_1_r. reflexivity.
Qed.

(** X6. [Quaternion.normalize] returns a unit quaternion on every finite
    quaternion of nonzero norm: the squares of the four components of the
    result sum to 1. *)
Theorem normalize_gives_unit (l0 l1 l2 l3 : R) :
  qnorm l0 l1 l2 l3 <> 0 ->
  exists m0 m1 m2 m3 : R,
    Quaternion.normalize (Quaternion.mk (Fin l0) (Fin l1) (Fin l2) (Fin l3))
    = Quaternion.mk (Fin m0) (Fin m1) (Fin m2) (Fin m3)
    /\ m0 * m0 + m1 * m1 + m2 * m2 + m3 * m3 = 1.
Proof.
  intros Hn. eexists _, _, _, _. split.
  - apply normalize_fin, Hn.
  - apply (normalized_unit _ _ _ _ Hn).
Qed.

Lemma normalize_gives_unit_witness :
  exists m0 m1 m2 m3 : R,
    Quaternion.normalize (Quaternion.mk (Fin 3) (Fin 0) (Fin 4) (Fin 0))
    = Quaternion.mk (Fin m0) (Fin m1) (Fin m2) (Fin m3)
    /\ m0 * m0 + m1 * m1 + m2 * m2 + m3 * m3 = 1.
Proof. apply normalize_gives_unit. rewrite qnorm_3040. lra. Defined.

(** X7. [Quaternion.normalize] is idempotent on finite quaternions of
    nonzero norm: normalizing a normalized quaternion returns it. *)
Theorem normalize_idempotent (l0 l1 l2 l3 : R) :
  qnorm l0 l1 l2 l3 <> 0 ->
  let q := Quaternion.mk (Fin l0) (Fin l1) (Fin l2) (Fin l3) in
  Quaternion.normalize (Quaternion.normalize q) = Quaternion.normalize q.
Proof.
  intros Hn q. subst q. rewrite normalize_fin by exact Hn.
  apply normalize_of_unit, (normalized_unit _ _ _ _ Hn).
Qed.

Lemma normalize_idempotent_witness :
  Quaternion.normalize
    (Quaternion.normalize (Quaternion.mk (Fin 3) (Fin 0) (Fin 4) (Fin 0)))
  = Quaternion.normalize (Quaternion.mk (Fin 3) (Fin 0) (Fin 4) (Fin 0)).
Proof. apply normalize_idempotent. rewrite qnorm_3040. lra. Defined.

Lemma qnorm_scale (c l0 l1 l2 l3 : R) :
  0 < c -> qnorm (c * l0) (c * l1) (c * l2) (c * l3) = c * qnorm l0 l1 l2 l3.
Proof.
  intros Hc. pose proof (qnorm_nonneg l0 l1 l2 l3) as Hp.
  unfold qnorm at 1.
  replace (c * l0 * (c * l0) + c * l1 * (c * l1) + c * l2 * (c * l2) + c * l3 * (c * l3))
    with ((c * qnorm l0 l1 l2 l3) * (c * qnorm l0 l1 l2 l3)).
  - apply sqrt_square. nra.
  - transitivity (c * c * (qnorm l0 l1 l2 l3 * qnorm l0 l1 l2 l3)); [ring |].
    rewrite qnorm_sqr. ring.
Qed.

(** X8. [Quaternion.normalize] depends on the direction of the quaternion
    only: a finite quaternion of nonzero norm and its multiple by a positive
    scalar have the same normalized quaternion. *)
Theorem normalize_scale_invariant (c l0 l1 l2 l3 : R) :
  0 < c ->
  qnorm l0 l1 l2 l3 <> 0 ->
  Quaternion.normalize
    (Quaternion.mk (Fin (c * l0)) (Fin (c * l1)) (Fin (c * l2)) (Fin (c * l3)))
  = Quaternion.normalize (Quaternion.mk (Fin l0) (Fin l1) (Fin l2) (Fin l3)).
Proof.
  intros Hc Hn. pose proof (qnorm_scale c l0 l1 l2 l3 Hc) as Hs.
  rewrite (normalize_fin l0 l1 l2 l3 Hn).
  rewrite normalize_fin by (rewrite Hs; nra).
  rewrite Hs. f_equal; f_equal; field; split; lra.
Qed.

Lemma normalize_scale_invariant_witness :
  Quaternion.normalize
    (Quaternion.mk (Fin (2 * 3)) (Fin (2 * 0)) (Fin (2 * 4)) (Fin (2 * 0)))
  = Quaternion.normalize (Quaternion.mk (Fin 3) (Fin 0) (Fin 4) (Fin 0)).
Proof. apply normalize_scale_invariant; [lra | rewrite qnorm_3040; lra]. Defined.

Lemma normalize_has_nan (q : Quaternion.t) :
  quaternion_has_nan q = true ->
  Quaternion.normalize q = Quaternion.mk NaN NaN NaN NaN.
Proof.
  destruct q as [l0 l1 l2 l3]. unfold quaternion_has_nan, Quaternion.normalize; simpl.
  intros H.
  assert (Hn : np_sqrt (fsquare l0 + fsquare l1 + fsquare l2 + fsquare l3)%fl = NaN).
  { unfold fsquare.
    destruct l0, l1, l2, l3; simpl in H; try discriminate H; autorewrite with nan; reflexivity. }
  rewrite Hn. autorewrite with nan. reflexivity.
Qed.

(** X9. A NaN in any component of a quaternion makes every component of
    its normalization NaN. *)
Theorem normalize_nan (q : Quaternion.t) :
  quaternion_has_nan q = true ->
  Quaternion.normalize q = Quaternion.mk NaN NaN NaN NaN.
Proof. apply normalize_has_nan. Qed.

Lemma normalize_nan_witness :
  Quaternion.normalize (Quaternion.mk (Fin 1) NaN (Fin 0) (Fin 0))
  = Quaternion.mk NaN NaN NaN NaN.
Proof. apply normalize_nan. reflexivity. Defined.

Section UnitQuaternion.
Context (l0 l1 l2 l3 : R).
Hypothesis Hu : l0 * l0 + l1 * l1 + l2 * l2 + l3 * l3 = 1.

Lemma qrot_dot (u w : vec) :
  vdot (qrot l0 l1 l2 l3 u) (qrot l0 l1 l2 l3 w) = vdot u w.
Proof.
  destruct u as [u1 u2 u3], w as [w1 w2 w3]. eval_vec. nsatz.
Qed.

Lemma qrot_conjugate (u : vec) :
  qrot l0 (- l1) (- l2) (- l3) (qrot l0 l1 l2 l3 u) = u.
Proof.
  destruct u as [u1 u2 u3]. apply vec_eq; eval_vec; nsatz.
Qed.

Lemma qrot_axis : qrot l0 l1 l2 l3 (V3 l1 l2 l3) = V3 l1 l2 l3.
Proof. apply vec_eq; eval_vec; nsatz. Qed.
End UnitQuaternion.

(** X10. Rotating by a unit quaternion preserves dot products, hence
    lengths and angles: for finite [u], [w] and a finite quaternion whose
    squared components sum to 1, the rotated vectors have the dot product of
    [u] and [w], and the rotated [u] has the length of [u]. *)
Theorem rotate_vector_isometry (l0 l1 l2 l3 : R) (u w : vec) :
  l0 * l0 + l1 * l1 + l2 * l2 + l3 * l3 = 1 ->
  let q := Quaternion.mk (Fin l0) (Fin l1) (Fin l2) (Fin l3) in
  exists u' w' : vec,
    Quaternion.rotate_vector q (arr u) = arr u'
    /\ Quaternion.rotate_vector q (arr w) = arr w'
    /\ vdot u' w' = vdot u w
    /\ vnorm u' = vnorm u.
Proof.
  intros Hu q. exists (qrot l0 l1 l2 l3 u), (qrot l0 l1 l2 l3 w).
  split; [apply rotate_vector_fin |]. split; [apply rotate_vector_fin |].
  split; [apply (qrot_dot _ _ _ _ Hu) |].
  unfold vnorm. rewrite (qrot_dot _ _ _ _ Hu). reflexivity.
Qed.

Lemma unit_3545 : 3 / 5 * (3 / 5) + 0 * 0 + 4 / 5 * (4 / 5) + 0 * 0 = 1.
Proof. field. Qed.

Lemma rotate_vector_isometry_witness :
  exists u' w' : vec,
    Quaternion.rotate_vector (Quaternion.mk (Fin (3 / 5)) (Fin 0) (Fin (4 / 5)) (Fin 0))
      (arr (V3 1 0 0)) = arr u'
    /\ Quaternion.rotate_vector (Quaternion.mk (Fin (3 / 5)) (Fin 0) (Fin (4 / 5)) (Fin 0))
         (arr (V3 0 1 0)) = arr w'
    /\ vdot u' w' = vdot (V3 1 0 0) (V3 0 1 0)
    /\ vnorm u' = vnorm (V3 1 0 0).
Proof. apply (rotate_vector_isometry (3 / 5) 0 (4 / 5) 0). exact unit_3545. Defined.

(** X11. Round trip: rotating by a unit quaternion and then by its
    conjugate [(l0, -l1, -l2, -l3)] returns the vector. *)
Theorem rotate_vector_conjugate_inverse (l0 l1 l2 l3 : R) (u : vec) :
  l0 * l0 + l1 * l1 + l2 * l2 + l3 * l3 = 1 ->
  Quaternion.rotate_vector
    (Quaternion.mk (Fin l0) (Fin (- l1)) (Fin (- l2)) (Fin (- l3)))
    (Quaternion.rotate_vector (Quaternion.mk (Fin l0) (Fin l1) (Fin l2) (Fin l3)) (arr u))
  = arr u.
Proof.
  intros Hu. rewrite !rotate_vector_fin, (qrot_conjugate _ _ _ _ Hu). reflexivity.
Qed.

Lemma rotate_vector_conjugate_inverse_witness :
  Quaternion.rotate_vector
    (Quaternion.mk (Fin (3 / 5)) (Fin (- 0)) (Fin (- (4 / 5))) (Fin (- 0)))
    (Quaternion.rotate_vector
       (Quaternion.mk (Fin (3 / 5)) (Fin 0) (Fin (4 / 5)) (Fin 0)) (arr (V3 1 2 3)))
  = arr (V3 1 2 3).
Proof. apply rotate_vector_conjugate_inverse. exact unit_3545. Defined.

(** X12. A quaternion and its negative rotate alike: for every finite
    quaternion, unit or not, [rotate_vector] gives the same vector on
    [(l0, l1, l2, l3)] and on [(-l0, -l1, -l2, -l3)]. *)
Theorem rotate_vector_negated (l0 l1 l2 l3 : R) (u : vec) :
  Quaternion.rotate_vector
    (Quaternion.mk (Fin (- l0)) (Fin (- l1)) (Fin (- l2)) (Fin (- l3))) (arr u)
  = Quaternion.rotate_vector (Quaternion.mk (Fin l0) (Fin l1) (Fin l2) (Fin l3)) (arr u).
Proof.
  rewrite !rotate_vector_fin. f_equal. destruct u. apply vec_eq; eval_vec; ring.
Qed.

(** X13. A finite quaternion with a zero vector part rotates every finite
    vector to itself, whatever finite value its scalar part has: the zero
    quaternion too gives the identity matrix. *)
Theorem rotate_vector_scalar_quaternion (l0 : R) (u : vec) :
  Quaternion.rotate_vector (Quaternion.mk (Fin l0) (Fin 0) (Fin 0) (Fin 0)) (arr u)
  = arr u.
Proof.
  rewrite rotate_vector_fin. f_equal. destruct u. apply vec_eq; eval_vec; ring.
Qed.

(** X14. The vector part of a unit quaternion is fixed by its rotation: it
    lies on the rotation axis. *)
Theorem rotate_vector_fixes_axis (l0 l1 l2 l3 : R) :
  l0 * l0 + l1 * l1 + l2 * l2 + l3 * l3 = 1 ->
  Quaternion.rotate_vector (Quaternion.mk (Fin l0) (Fin l1) (Fin l2) (Fin l3))
    (arr (V3 l1 l2 l3))
  = arr (V3 l1 l2 l3).
Proof.
  intros Hu. rewrite rotate_vector_fin, (qrot_axis _ _ _ _ Hu). reflexivity.
Qed.

Lemma rotate_vector_fixes_axis_witness :
  Quaternion.rotate_vector (Quaternion.mk (Fin (3 / 5)) (Fin 0) (Fin (4 / 5)) (Fin 0))
    (arr (V3 0 (4 / 5) 0))
  = arr (V3 0 (4 / 5) 0).
Proof. apply rotate_vector_fixes_axis. exact unit_3545. Defined.

(** X15. [rotate_vector] is linear in the vector, for every finite
    quaternion: the image of [s*u + w] is [s] times the image of [u] plus
    the image of [w]. *)
Theorem rotate_vector_linear (l0 l1 l2 l3 s : R) (u w : vec) :
  let q := Quaternion.mk (Fin l0) (Fin l1) (Fin l2) (Fin l3) in
  exists u' w' : vec,
    Quaternion.rotate_vector q (arr u) = arr u'
    /\ Quaternion.rotate_vector q (arr w) = arr w'
    /\ Quaternion.rotate_vector q (arr (vadd (vscale s u) w)) = arr (vadd (vscale s u') w').
Proof.
  intros q. exists (qrot l0 l1 l2 l3 u), (qrot l0 l1 l2 l3 w).
  split; [apply rotate_vector_fin |]. split; [apply rotate_vector_fin |].
  subst q. rewrite rotate_vector_fin. f_equal.
  destruct u, w. apply vec_eq; eval_vec; ring.
Qed.

(** ** Screw displacements about one axis *)

Section ScrewAlgebra.
Context (a : vec).
Hypothesis Hu : vdot a a = 1.

Lemma screw_compose (v : vec) (t1 d1 t2 d2 : R) :
  screw a (screw a v t1 d1) t2 d2 = screw a v (t1 + t2) (d1 + d2).
Proof.
  unfold screw, rodrigues. rewrite sin_plus, cos_plus.
  destruct a as [a1 a2 a3], v as [v1 v2 v3]. revert Hu. eval_vec.
  generalize (sin t1) (cos t1) (sin t2) (cos t2). intros s1 c1 s2 c2 Hu'.
  apply vec_eq; eval_vec; nsatz.
Qed.

Lemma screw_parallel (k theta d : R) :
  screw a (vscale k a) theta d = vadd (vscale k a) (vscale d a).
Proof.
  destruct a as [a1 a2 a3]. revert Hu. eval_vec.
  generalize (sin theta) (cos theta). intros s c Hu'.
  apply vec_eq; eval_vec; nsatz.
Qed.

Lemma screw_length (v : vec) (theta d : R) :
  vdot (screw a v theta d) (screw a v theta d) = vdot v v + 2 * d * vdot v a + d * d.
Proof.
  pose proof (sin2_cos2 theta) as Hsc. unfold Rsqr in Hsc. revert Hsc.
  destruct a as [a1 a2 a3], v as [v1 v2 v3]. revert Hu. eval_vec.
  generalize (sin theta) (cos theta). intros s c Hu' Hsc. nsatz.
Qed.
End ScrewAlgebra.

Lemma screw_period (a v : vec) (theta d : R) :
  screw a v (theta + 2 * PI) d = screw a v theta d.
Proof.
  unfold screw, rodrigues. rewrite sin_plus, cos_plus, sin_2PI, cos_2PI.
  apply vec_eq; eval_vec; ring.
Qed.

Lemma screw_reversed (a v : vec) (theta d : R) :
  screw (vscale (-1) a) v (- theta) (- d) = screw a v theta d.
Proof.
  unfold screw, rodrigues. rewrite sin_neg, cos_neg.
  apply vec_eq; eval_vec; ring.
Qed.

Lemma vnorm_reversed (a : vec) : vnorm (vscale (-1) a) = vnorm a.
Proof. unfold vnorm. f_equal. eval_vec. ring. Qed.

Lemma direction_reversed (a : vec) :
  direction (vscale (-1) a) = vscale (-1) (direction a).
Proof.
  unfold direction. rewrite vnorm_reversed. apply vec_eq; eval_vec; ring.
Qed.

Lemma reversed_nonzero (a : vec) : a <> vzero -> vscale (-1) a <> vzero.
Proof.
  intros Hnz H0. apply Hnz. destruct a as [a1 a2 a3].
  unfold vscale, vzero in H0; simpl in H0. injection H0 as H1 H2 H3.
  apply vec_eq; simpl; lra.
Qed.

(** ** More on the two rotators *)

Lemma direction_vnorm (a : vec) : a <> vzero -> vnorm (direction a) = 1.
Proof. intros Hnz. apply vnorm_unit, direction_unit_dot, Hnz. Qed.

Section AfterCall.
Context (h : heap) (pv pa : loc) (v a : vec).
Hypothesis Hv : h !! pv = Some (arr v).
Hypothesis Ha : h !! pa = Some (arr a).
Hypothesis Hnz : a <> vzero.

(** The store after a call, at the axis and at the vector. *)
Lemma after_call_axis : <[pa := arr (direction a)]> h !! pa = Some (arr (direction a)).
Proof. apply lookup_insert_eq. Qed.

Lemma after_call_vec : <[pa := arr (direction a)]> h !! pv = Some (arr (seen pv pa v a)).
Proof.
  rewrite <- (axis_after_nonzero a Hnz), <- vec_after_fin by exact Hnz.
  apply lookup_after_vec, Hv.
Qed.

(** A call in a store that holds [arr w] at [pw] and the axis as a first
    call left it. *)
Lemma later_call_dual (pw : loc) (w : vec) (theta d : R) :
  pw <> pa ->
  rodrigues_rotation pw pa (DualNumber.mk (Fin theta) (Fin d))
    (<[pw := arr w]> (<[pa := arr (direction a)]> h))
  = Some (arr (screw (direction a) w theta d),
          <[pw := arr w]> (<[pa := arr (direction a)]> h)).
Proof.
  intros Hne. apply rodrigues_rotation_unit.
  - apply lookup_insert_eq.
  - rewrite lookup_insert_ne by congruence. apply after_call_axis.
  - apply direction_vnorm, Hnz.
Qed.

Lemma later_call_hamilton (pw : loc) (w : vec) (theta d : R) :
  pw <> pa ->
  rodrigues_hamilton_rotation pw pa (Fin theta) (Fin d)
    (<[pw := arr w]> (<[pa := arr (direction a)]> h))
  = Some (arr (screw (direction a) w theta d),
          <[pw := arr w]> (<[pa := arr (direction a)]> h)).
Proof.
  intros Hne. apply rodrigues_hamilton_rotation_unit.
  - apply lookup_insert_eq.
  - rewrite lookup_insert_ne by congruence. apply after_call_axis.
  - apply direction_vnorm, Hnz.
Qed.
End AfterCall.

(** X16. Periodicity: for a nonzero axis both rotators return at the angle
    [theta + 2 pi] what they return at [theta], and leave the same store. *)
Theorem rotators_periodic (h : heap) (pv pa : loc) (v a : vec) (theta d : R) :
  h !! pv = Some (arr v) ->
  h !! pa = Some (arr a) ->
  a <> vzero ->
  exists (r : vec) (h' : heap),
    (rodrigues_rotation pv pa (DualNumber.mk (Fin theta) (Fin d)) h = Some (arr r, h')
     /\ rodrigues_rotation pv pa (DualNumber.mk (Fin (theta + 2 * PI)) (Fin d)) h
        = Some (arr r, h'))
    /\ (rodrigues_hamilton_rotation pv pa (Fin theta) (Fin d) h = Some (arr r, h')
        /\ rodrigues_hamilton_rotation pv pa (Fin (theta + 2 * PI)) (Fin d) h
           = Some (arr r, h')).
Proof.
  intros Hv Ha Hnz. eexists _, _.
  rewrite !(rodrigues_rotation_fin h pv pa v a _ _ Hv Ha Hnz).
  rewrite !(rodrigues_hamilton_rotation_fin h pv pa v a _ _ Hv Ha Hnz).
  rewrite screw_period. repeat split.
Qed.

Lemma rotators_periodic_witness :
  exists (r : vec) (h' : heap),
    (rodrigues_rotation 1%positive 2%positive (DualNumber.mk (Fin 1) (Fin 5)) store_long
       = Some (arr r, h')
     /\ rodrigues_rotation 1%positive 2%positive
          (DualNumber.mk (Fin (1 + 2 * PI)) (Fin 5)) store_long
        = Some (arr r, h'))
    /\ (rodrigues_hamilton_rotation 1%positive 2%positive (Fin 1) (Fin 5) store_long
          = Some (arr r, h')
        /\ rodrigues_hamilton_rotation 1%positive 2%positive (Fin (1 + 2 * PI)) (Fin 5)
             store_long
           = Some (arr r, h')).
Proof.
  apply (rotators_periodic store_long 1%positive 2%positive (V3 0 1 0) (V3 2 0 0)).
  - reflexivity.
  - reflexivity.
  - exact nonzero_x2.
Defined.

(** X17. Screw displacements about one axis compose by adding angles and
    displacements: when the result of a first call is held in an array [w]
    other than the axis array and either rotator is called on [w] with the
    same axis array, the second result is what one call with the first
    arguments returns for the angle [t1 + t2] and the displacement
    [d1 + d2]; the second call changes no array.  The first call may have
    one array as vector and as axis. *)
Theorem screw_calls_compose
    (h : heap) (pv pa pw : loc) (v a : vec) (t1 d1 t2 d2 : R) :
  h !! pv = Some (arr v) ->
  h !! pa = Some (arr a) ->
  pw <> pa ->
  a <> vzero ->
  exists (r1 r12 : vec) (h1 : heap),
    rodrigues_rotation pv pa (DualNumber.mk (Fin t1) (Fin d1)) h = Some (arr r1, h1)
    /\ rodrigues_rotation pw pa (DualNumber.mk (Fin t2) (Fin d2)) (<[pw := arr r1]> h1)
       = Some (arr r12, <[pw := arr r1]> h1)
    /\ rodrigues_hamilton_rotation pw pa (Fin t2) (Fin d2) (<[pw := arr r1]> h1)
       = Some (arr r12, <[pw := arr r1]> h1)
    /\ rodrigues_rotation pv pa (DualNumber.mk (Fin (t1 + t2)) (Fin (d1 + d2))) h
       = Some (arr r12, h1).
Proof.
  intros Hv Ha Hnw Hnz. eexists _, _, _.
  rewrite !(rodrigues_rotation_fin h pv pa v a _ _ Hv Ha Hnz).
  split; [reflexivity |].
  rewrite (later_call_dual h pa a Hnz pw _ t2 d2 Hnw).
  rewrite (later_call_hamilton h pa a Hnz pw _ t2 d2 Hnw).
  rewrite (screw_compose _ (direction_unit_dot a Hnz)). repeat split.
Qed.

Lemma screw_calls_compose_witness :
  exists (r1 r12 : vec) (h1 : heap),
    rodrigues_rotation 2%positive 2%positive (DualNumber.mk (Fin 1) (Fin 5)) store_long
    = Some (arr r1, h1)
    /\ rodrigues_rotation 3%positive 2%positive (DualNumber.mk (Fin 2) (Fin 7))
         (<[3%positive := arr r1]> h1)
       = Some (arr r12, <[3%positive := arr r1]> h1)
    /\ rodrigues_hamilton_rotation 3%positive 2%positive (Fin 2) (Fin 7)
         (<[3%positive := arr r1]> h1)
       = Some (arr r12, <[3%positive := arr r1]> h1)
    /\ rodrigues_rotation 2%positive 2%positive
         (DualNumber.mk (Fin (1 + 2)) (Fin (5 + 7))) store_long
       = Some (arr r12, h1).
Proof.
  apply (screw_calls_compose store_long 2%positive 2%positive 3%positive (V3 2 0 0) (V3 2 0 0)).
  - reflexivity.
  - reflexivity.
  - discriminate.
  - exact nonzero_x2.
Defined.

(** X18. Round trip, for a vector [v] and an axis held in two different
    arrays: a call with the angle [theta] and the displacement [d] followed
    by a call of either rotator with [-theta] and [-d] on its result, held
    in an array other than the axis array, about the same axis array,
    returns the vector [v]. *)
Theorem screw_call_undone
    (h : heap) (pv pa pw : loc) (v a : vec) (theta d : R) :
  h !! pv = Some (arr v) ->
  h !! pa = Some (arr a) ->
  pv <> pa -> pw <> pa ->
  a <> vzero ->
  exists (r1 : vec) (h1 : heap),
    rodrigues_rotation pv pa (DualNumber.mk (Fin theta) (Fin d)) h = Some (arr r1, h1)
    /\ rodrigues_rotation pw pa (DualNumber.mk (Fin (- theta)) (Fin (- d)))
         (<[pw := arr r1]> h1)
       = Some (arr v, <[pw := arr r1]> h1)
    /\ rodrigues_hamilton_rotation pw pa (Fin (- theta)) (Fin (- d)) (<[pw := arr r1]> h1)
       = Some (arr v, <[pw := arr r1]> h1).
Proof.
  intros Hv Ha Hne Hnw Hnz. eexists _, _.
  rewrite !(rodrigues_rotation_fin h pv pa v a _ _ Hv Ha Hnz), (seen_distinct _ _ _ _ Hne).
  split; [reflexivity |].
  rewrite (later_call_dual h pa a Hnz pw _ _ _ Hnw).
  rewrite (later_call_hamilton h pa a Hnz pw _ _ _ Hnw).
  rewrite (screw_compose _ (direction_unit_dot a Hnz)), !Rplus_opp_r, screw_zero,
    vadd_zero_scale.
  split; reflexivity.
Qed.

Lemma screw_call_undone_witness :
  exists (r1 : vec) (h1 : heap),
    rodrigues_rotation 1%positive 2%positive (DualNumber.mk (Fin 1) (Fin 5)) store_long
    = Some (arr r1, h1)
    /\ rodrigues_rotation 3%positive 2%positive (DualNumber.mk (Fin (- 1)) (Fin (- 5)))
         (<[3%positive := arr r1]> h1)
       = Some (arr (V3 0 1 0), <[3%positive := arr r1]> h1)
    /\ rodrigues_hamilton_rotation 3%positive 2%positive (Fin (- 1)) (Fin (- 5))
         (<[3%positive := arr r1]> h1)
       = Some (arr (V3 0 1 0), <[3%positive := arr r1]> h1).
Proof.
  apply (screw_call_undone store_long 1%positive 2%positive 3%positive (V3 0 1 0) (V3 2 0 0)).
  - reflexivity.
  - reflexivity.
  - discriminate.
  - discriminate.
  - exact nonzero_x2.
Defined.

(** X19. Only the first call changes the axis array: a call repeated with
    the same arguments in the store that the first call left returns the
    same vector and leaves that store as it is, with either rotator, also
    when one array is passed as vector and as axis. *)
Theorem repeated_call_stable (h : heap) (pv pa : loc) (v a : vec) (theta d : R) :
  h !! pv = Some (arr v) ->
  h !! pa = Some (arr a) ->
  a <> vzero ->
  exists (r : vec) (h1 : heap),
    (rodrigues_rotation pv pa (DualNumber.mk (Fin theta) (Fin d)) h = Some (arr r, h1)
     /\ rodrigues_rotation pv pa (DualNumber.mk (Fin theta) (Fin d)) h1 = Some (arr r, h1))
    /\ (rodrigues_hamilton_rotation pv pa (Fin theta) (Fin d) h = Some (arr r, h1)
        /\ rodrigues_hamilton_rotation pv pa (Fin theta) (Fin d) h1 = Some (arr r, h1)).
Proof.
  intros Hv Ha Hnz. eexists _, _.
  rewrite (rodrigues_rotation_fin h pv pa v a _ _ Hv Ha Hnz).
  rewrite (rodrigues_hamilton_rotation_fin h pv pa v a _ _ Hv Ha Hnz).
  pose proof (after_call_vec h pv pa v a Hv Hnz) as Hv1.
  pose proof (after_call_axis h pa a) as Ha1.
  pose proof (direction_vnorm a Hnz) as Hu.
  rewrite (rodrigues_rotation_unit _ pv pa _ _ theta d Hv1 Ha1 Hu).
  rewrite (rodrigues_hamilton_rotation_unit _ pv pa _ _ theta d Hv1 Ha1 Hu).
  repeat split.
Qed.

Lemma repeated_call_stable_witness :
  exists (r : vec) (h1 : heap),
    (rodrigues_rotation 1%positive 2%positive (DualNumber.mk (Fin 1) (Fin 5)) store_long
       = Some (arr r, h1)
     /\ rodrigues_rotation 1%positive 2%positive (DualNumber.mk (Fin 1) (Fin 5)) h1
        = Some (arr r, h1))
    /\ (rodrigues_hamilton_rotation 1%positive 2%positive (Fin 1) (Fin 5) store_long
          = Some (arr r, h1)
        /\ rodrigues_hamilton_rotation 1%positive 2%positive (Fin 1) (Fin 5) h1
           = Some (arr r, h1)).
Proof.
  apply (repeated_call_stable store_long 1%positive 2%positive (V3 0 1 0) (V3 2 0 0)).
  - reflexivity.
  - reflexivity.
  - exact nonzero_x2.
Defined.

(** X20. Reversing the axis together with the signs of the angle and of the
    displacement changes nothing, for a vector [v] held in an array other
    than the two axis arrays: a call with the axis [-a], the angle [-theta]
    and the displacement [-d] returns what the call with [a], [theta] and
    [d] returns, with either rotator. *)
Theorem reversed_axis_same_screw
    (h : heap) (pv pa pb : loc) (v a : vec) (theta d : R) :
  h !! pv = Some (arr v) ->
  h !! pa = Some (arr a) ->
  h !! pb = Some (arr (vscale (-1) a)) ->
  pv <> pa -> pv <> pb ->
  a <> vzero ->
  exists (r : vec) (ha hb : heap),
    (rodrigues_rotation pv pa (DualNumber.mk (Fin theta) (Fin d)) h = Some (arr r, ha)
     /\ rodrigues_rotation pv pb (DualNumber.mk (Fin (- theta)) (Fin (- d))) h
        = Some (arr r, hb))
    /\ (rodrigues_hamilton_rotation pv pa (Fin theta) (Fin d) h = Some (arr r, ha)
        /\ rodrigues_hamilton_rotation pv pb (Fin (- theta)) (Fin (- d)) h
           = Some (arr r, hb)).
Proof.
  intros Hv Ha Hb Hna Hnb Hnz. pose proof (reversed_nonzero a Hnz) as Hnz'.
  eexists _, _, _.
  rewrite (rodrigues_rotation_fin h pv pa v a _ _ Hv Ha Hnz).
  rewrite (rodrigues_rotation_fin h pv pb v _ _ _ Hv Hb Hnz').
  rewrite (rodrigues_hamilton_rotation_fin h pv pa v a _ _ Hv Ha Hnz).
  rewrite (rodrigues_hamilton_rotation_fin h pv pb v _ _ _ Hv Hb Hnz').
  rewrite !seen_distinct by assumption.
  rewrite direction_reversed, screw_reversed. repeat split.
Qed.

Lemma reversed_axis_same_screw_witness :
  exists (r : vec) (ha hb : heap),
    (rodrigues_rotation 1%positive 2%positive (DualNumber.mk (Fin 1) (Fin 5)) store_reversed
       = Some (arr r, ha)
     /\ rodrigues_rotation 1%positive 3%positive (DualNumber.mk (Fin (- 1)) (Fin (- 5)))
          store_reversed
        = Some (arr r, hb))
    /\ (rodrigues_hamilton_rotation 1%positive 2%positive (Fin 1) (Fin 5) store_reversed
          = Some (arr r, ha)
        /\ rodrigues_hamilton_rotation 1%positive 3%positive (Fin (- 1)) (Fin (- 5))
             store_reversed
           = Some (arr r, hb)).
Proof.
  apply (reversed_axis_same_screw store_reversed 1%positive 2%positive 3%positive
           (V3 0 1 0) (V3 2 0 0)).
  - reflexivity.
  - reflexivity.
  - reflexivity.
  - discriminate.
  - discriminate.
  - exact nonzero_x2.
Defined.

(** X21. A vector along the axis is only translated: for [v = k*a] and a
    nonzero axis [a] held in two different arrays, both rotators return
    [v + d * a/||a||], whatever the angle. *)
Theorem vector_on_axis_translated
    (h : heap) (pv pa : loc) (a : vec) (k theta d : R) :
  h !! pv = Some (arr (vscale k a)) ->
  h !! pa = Some (arr a) ->
  pv <> pa ->
  a <> vzero ->
  exists h' : heap,
    rodrigues_rotation pv pa (DualNumber.mk (Fin theta) (Fin d)) h
    = Some (arr (vadd (vscale k a) (vscale d (direction a))), h')
    /\ rodrigues_hamilton_rotation pv pa (Fin theta) (Fin d) h
       = Some (arr (vadd (vscale k a) (vscale d (direction a))), h').
Proof.
  intros Hv Ha Hne Hnz. eexists _.
  rewrite (rodrigues_rotation_fin h pv pa _ a _ _ Hv Ha Hnz).
  rewrite (rodrigues_hamilton_rotation_fin h pv pa _ a _ _ Hv Ha Hnz).
  rewrite (seen_distinct _ _ _ _ Hne).
  assert (Hk : vscale k a = vscale (k * vnorm a) (direction a)).
  { pose proof (vnorm_neq0 a Hnz). unfold direction. apply vec_eq; eval_vec; field; assumption. }
  rewrite Hk at 1 3. rewrite (screw_parallel _ (direction_unit_dot a Hnz)), <- Hk.
  split; reflexivity.
Qed.

Lemma vector_on_axis_translated_witness :
  exists h' : heap,
    rodrigues_rotation 3%positive 2%positive (DualNumber.mk (Fin 1) (Fin 5)) store_long
    = Some (arr (vadd (vscale 3 (V3 2 0 0)) (vscale 5 (direction (V3 2 0 0)))), h')
    /\ rodrigues_hamilton_rotation 3%positive 2%positive (Fin 1) (Fin 5) store_long
       = Some (arr (vadd (vscale 3 (V3 2 0 0)) (vscale 5 (direction (V3 2 0 0)))), h').
Proof.
  apply (vector_on_axis_translated store_long 3%positive 2%positive (V3 2 0 0) 3).
  - reflexivity.
  - reflexivity.
  - discriminate.
  - exact nonzero_x2.
Defined.

(** X22. Length of the result, for a vector [v] and a nonzero axis of
    direction [a] held in two different arrays: the squared length of what
    either rotator returns is [|v|^2 + 2 d (v.a) + d^2]; with a zero
    displacement the result has the length of [v]. *)
Theorem result_length
    (h : heap) (pv pa : loc) (v axis : vec) (theta d : R) :
  h !! pv = Some (arr v) ->
  h !! pa = Some (arr axis) ->
  pv <> pa ->
  axis <> vzero ->
  exists (r : vec) (h' : heap),
    rodrigues_rotation pv pa (DualNumber.mk (Fin theta) (Fin d)) h = Some (arr r, h')
    /\ rodrigues_hamilton_rotation pv pa (Fin theta) (Fin d) h = Some (arr r, h')
    /\ vdot r r = vdot v v + 2 * d * vdot v (direction axis) + d * d
    /\ (d = 0 -> vnorm r = vnorm v).
Proof.
  intros Hv Ha Hne Hnz. eexists _, _.
  rewrite (rodrigues_rotation_fin h pv pa v axis _ _ Hv Ha Hnz).
  rewrite (rodrigues_hamilton_rotation_fin h pv pa v axis _ _ Hv Ha Hnz).
  rewrite (seen_distinct _ _ _ _ Hne).
  pose proof (screw_length _ (direction_unit_dot axis Hnz) v theta d) as Hl.
  split; [reflexivity |]. split; [reflexivity |]. split; [exact Hl |].
  intros ->. unfold vnorm. rewrite Hl. f_equal. ring.
Qed.

Lemma result_length_witness :
  exists (r : vec) (h' : heap),
    rodrigues_rotation 1%positive 2%positive (DualNumber.mk (Fin 1) (Fin 0)) store_long
    = Some (arr r, h')
    /\ rodrigues_hamilton_rotation 1%positive 2%positive (Fin 1) (Fin 0) store_long
       = Some (arr r, h')
    /\ vdot r r = vdot (V3 0 1 0) (V3 0 1 0) + 2 * 0 * vdot (V3 0 1 0) (direction (V3 2 0 0))
                  + 0 * 0
    /\ (0 = 0 -> vnorm r = vnorm (V3 0 1 0)).
Proof.
  apply (result_length store_long 1%positive 2%positive (V3 0 1 0) (V3 2 0 0)).
  - reflexivity.
  - reflexivity.
  - discriminate.
  - exact nonzero_x2.
Defined.

(** X23. In [rodrigues_hamilton_rotation] the quaternion built from the
    divided axis is a unit quaternion already: for a finite nonzero axis its
    [normalize] returns the quaternion it is applied to. *)
Theorem hamilton_quaternion_already_unit (a : vec) (theta : R) :
  a <> vzero ->
  let lambda_0 := np_cos (Fin theta / f2)%fl in
  let lambda_vec := arr_scale (axis_after (arr a)) (np_sin (Fin theta / f2)%fl) in
  let q := Quaternion.mk lambda_0 (item0 lambda_vec) (item1 lambda_vec) (item2 lambda_vec) in
  Quaternion.normalize q = q.
Proof.
  intros Hnz lambda_0 lambda_vec q. subst q lambda_vec lambda_0.
  rewrite axis_after_nonzero by exact Hnz. rewrite half_fin.
  cbn [arr arr_scale item0 item1 item2 np_cos np_sin fmul].
  apply normalize_of_unit.
  pose proof (qnorm_half_angle _ theta (direction_unit_dot a Hnz)) as Hq.
  rewrite <- qnorm_sqr, Hq. ring.
Qed.

Lemma hamilton_quaternion_already_unit_witness :
  let lambda_0 := np_cos (Fin 1 / f2)%fl in
  let lambda_vec := arr_scale (axis_after (arr (V3 2 0 0))) (np_sin (Fin 1 / f2)%fl) in
  let q := Quaternion.mk lambda_0 (item0 lambda_vec) (item1 lambda_vec) (item2 lambda_vec) in
  Quaternion.normalize q = q.
Proof. apply hamilton_quaternion_already_unit. exact nonzero_x2. Defined.

(** ** Non-finite arguments *)

Lemma np_dot_nan_r (a v : ndarray) : has_nan v = true -> np_dot a v = NaN.
Proof.
  destruct v as [x y z]. unfold has_nan, np_dot; simpl. intros H.
  destruct x, y, z; simpl in H; try discriminate H; autorewrite with nan; reflexivity.
Qed.

Lemma np_dot_nan_l (a v : ndarray) : has_nan a = true -> np_dot a v = NaN.
Proof.
  destruct a as [x y z]. unfold has_nan, np_dot; simpl. intros H.
  destruct x, y, z; simpl in H; try discriminate H; autorewrite with nan; reflexivity.
Qed.

Lemma axis_after_nan (a0 : ndarray) : has_nan a0 = true -> axis_after a0 = nan_array.
Proof.
  intros H. unfold axis_after, np_linalg_norm. rewrite (np_dot_nan_r a0 a0 H).
  unfold arr_div, nan_array. simpl. autorewrite with nan. reflexivity.
Qed.

Lemma axis_after_not_finite (a0 : ndarray) :
  all_finite a0 = false -> has_nan (axis_after a0) = true.
Proof.
  destruct a0 as [[r0 | s0 |] [r1 | s1 |] [r2 | s2 |]]; intros H; try discriminate H;
    repeat match goal with s : bool |- _ => destruct s end; reflexivity.
Qed.

Lemma dual_formula_poisoned (v a : ndarray) (c s k d : float64) :
  np_dot a v = NaN ->
  arr_add
    (arr_add (arr_add (arr_scale v c) (arr_scale (np_cross a v) s))
             (arr_scale (arr_scale a (np_dot a v)) k))
    (scalar_times d a)
  = nan_array.
Proof.
  intros ->. unfold arr_add, arr_scale, nan_array; simpl. autorewrite with nan. reflexivity.
Qed.

Lemma rotate_vector_poisoned (q : Quaternion.t) (v x : ndarray) :
  has_nan v = true -> arr_add (Quaternion.rotate_vector q v) x = nan_array.
Proof.
  intros H. unfold Quaternion.rotate_vector, matmul, arr_add; simpl.
  rewrite !(np_dot_nan_r _ v H). autorewrite with nan. reflexivity.
Qed.

Lemma hamilton_formula_poisoned (a v : ndarray) (l0 s d : float64) :
  has_nan a = true ->
  arr_add
    (Quaternion.rotate_vector
       (Quaternion.normalize
          (Quaternion.mk l0 (item0 a * s)%fl (item1 a * s)%fl (item2 a * s)%fl))
       v)
    (scalar_times d a)
  = nan_array.
Proof.
  intros H. rewrite normalize_has_nan.
  - eval_nan. reflexivity.
  - destruct a as [x y z]. unfold has_nan in H. unfold quaternion_has_nan. simpl in *.
    destruct x, y, z; simpl in H; try discriminate H; autorewrite with nan; simpl;
      rewrite ?orb_true_r; reflexivity.
Qed.

Lemma vec_after_nan (h : heap) (pv pa : loc) (v0 a0 : ndarray) :
  h !! pv = Some v0 -> h !! pa = Some a0 ->
  has_nan v0 = true -> has_nan (vec_after pv pa v0 a0) = true.
Proof.
  intros Hv Ha H. unfold vec_after. destruct (decide (pv = pa)) as [Heq | _]; [| exact H].
  rewrite Heq, Ha in Hv. injection Hv as ->. rewrite (axis_after_nan _ H). reflexivity.
Qed.

(** X24. A NaN in any item of the vector makes every item of the result
    NaN: both rotators return [(nan, nan, nan)] for every axis, angle and
    displacement, infinite and NaN ones included. *)
Theorem nan_vector_poisons_result
    (h : heap) (pv pa : loc) (v0 a0 : ndarray) (theta_dual : DualNumber.t)
    (theta d : float64) :
  h !! pv = Some v0 ->
  h !! pa = Some a0 ->
  has_nan v0 = true ->
  rodrigues_rotation pv pa theta_dual h = Some (nan_array, <[pa := axis_after a0]> h)
  /\ rodrigues_hamilton_rotation pv pa theta d h
     = Some (nan_array, <[pa := axis_after a0]> h).
Proof.
  intros Hv Ha H. pose proof (vec_after_nan h pv pa v0 a0 Hv Ha H) as H'. split.
  - rewrite (run_rodrigues_rotation h pv pa v0 a0 Hv Ha).
    rewrite dual_formula_poisoned by (apply np_dot_nan_r, H'). reflexivity.
  - rewrite (run_rodrigues_hamilton_rotation h pv pa v0 a0 Hv Ha).
    rewrite rotate_vector_poisoned by exact H'. reflexivity.
Qed.

Lemma nan_vector_poisons_result_witness :
  rodrigues_rotation 1%positive 2%positive (DualNumber.mk (Fin 1) (Fin 5)) store_nan_vector
  = Some (nan_array, <[2%positive := axis_after (arr (V3 0 0 1))]> store_nan_vector)
  /\ rodrigues_hamilton_rotation 1%positive 2%positive (Fin 1) (Fin 5) store_nan_vector
     = Some (nan_array, <[2%positive := axis_after (arr (V3 0 0 1))]> store_nan_vector).
Proof.
  apply (nan_vector_poisons_result store_nan_vector 1%positive 2%positive
           (Arr NaN (Fin 0) (Fin 0))).
  - reflexivity.
  - reflexivity.
  - reflexivity.
Defined.

(** X25. An axis with an infinite or NaN item gives a NaN result: both
    rotators return [(nan, nan, nan)] for every vector, angle and
    displacement, and the caller's axis array holds a NaN afterwards. *)
Theorem non_finite_axis_gives_nan
    (h : heap) (pv pa : loc) (v0 a0 : ndarray) (theta_dual : DualNumber.t)
    (theta d : float64) :
  h !! pv = Some v0 ->
  h !! pa = Some a0 ->
  all_finite a0 = false ->
  exists h' : heap,
    rodrigues_rotation pv pa theta_dual h = Some (nan_array, h')
    /\ rodrigues_hamilton_rotation pv pa theta d h = Some (nan_array, h')
    /\ exists a1 : ndarray, h' !! pa = Some a1 /\ has_nan a1 = true.
Proof.
  intros Hv Ha H. pose proof (axis_after_not_finite a0 H) as H'.
  exists (<[pa := axis_after a0]> h). split; [| split].
  - rewrite (run_rodrigues_rotation h pv pa v0 a0 Hv Ha).
    rewrite dual_formula_poisoned by (apply np_dot_nan_l, H'). reflexivity.
  - rewrite (run_rodrigues_hamilton_rotation h pv pa v0 a0 Hv Ha).
    rewrite hamilton_formula_poisoned by exact H'. reflexivity.
  - exists (axis_after a0). split; [apply lookup_insert_eq | exact H'].
Qed.

Lemma non_finite_axis_gives_nan_witness :
  exists h' : heap,
    rodrigues_rotation 1%positive 2%positive (DualNumber.mk (Fin 1) (Fin 5)) store_inf_axis
    = Some (nan_array, h')
    /\ rodrigues_hamilton_rotation 1%positive 2%positive (Fin 1) (Fin 5) store_inf_axis
       = Some (nan_array, h')
    /\ exists a1 : ndarray, h' !! 2%positive = Some a1 /\ has_nan a1 = true.
Proof.
  apply (non_finite_axis_gives_nan store_inf_axis 1%positive 2%positive (arr (V3 1 0 0))
           (Arr (Inf false) (Fin 0) (Fin 1))).
  - reflexivity.
  - reflexivity.
  - reflexivity.
Defined.

(** ** The plotting callers *)

Section Plot.
Context (h : heap) (V A : ndarray).

Lemma plot_refs_distinct : plot_vec_ref h <> plot_axis_ref h V.
Proof.
  intros Heq. apply (is_fresh (dom (<[plot_vec_ref h := V]> h))).
  fold (plot_axis_ref h V). rewrite <- Heq, dom_insert_L. set_solver.
Qed.

Lemma plot_lookup_axis : plot_store h V A !! plot_axis_ref h V = Some A.
Proof. apply lookup_insert_eq. Qed.

Lemma plot_lookup_vec : plot_store h V A !! plot_vec_ref h = Some V.
Proof.
  unfold plot_store.
  rewrite lookup_insert_ne by (intros Heq; apply plot_refs_distinct; congruence).
  apply lookup_insert_eq.
Qed.

Lemma plot_frame (l : loc) (x : ndarray) (A' : ndarray) :
  h !! l = Some x -> <[plot_axis_ref h V := A']> (plot_store h V A) !! l = Some x.
Proof.
  intros Hl.
  assert (Hd : l ∈ dom h) by (apply elem_of_dom; eauto).
  assert (Hlv : l <> plot_vec_ref h) by (intros ->; apply (is_fresh (dom h)), Hd).
  assert (Hla : l <> plot_axis_ref h V).
  { intros ->. apply (is_fresh (dom (<[plot_vec_ref h := V]> h))).
    fold (plot_axis_ref h V). rewrite dom_insert_L. set_solver. }
  unfold plot_store. rewrite !lookup_insert_ne by congruence. exact Hl.
Qed.

Lemma run_plot_dual (theta theta_dual : float64) :
  plot_interactive_rodrigues theta theta_dual (item0 A) (item1 A) (item2 A)
    (item0 V) (item1 V) (item2 V) h
  = match rodrigues_rotation (plot_vec_ref h) (plot_axis_ref h V)
            (DualNumber.mk theta theta_dual) (plot_store h V A) with
    | Some (r, h3) =>
        match h3 !! plot_axis_ref h V with Some x => Some ((x, r), h3) | None => None end
    | None => None
    end.
Proof.
  destruct V, A.
  unfold plot_interactive_rodrigues, np_array, load, mbind, py_bind, mret, py_ret; simpl.
  unfold plot_store, plot_axis_ref, plot_vec_ref.
  destruct (rodrigues_rotation _ _ _ _) as [[r h3] |]; [| reflexivity].
  destruct (h3 !! _); reflexivity.
Qed.

Lemma run_plot_hamilton (theta d : float64) :
  plot_interactive_rodrigues_hamilton theta d (item0 A) (item1 A) (item2 A)
    (item0 V) (item1 V) (item2 V) h
  = match rodrigues_hamilton_rotation (plot_vec_ref h) (plot_axis_ref h V) theta d
            (plot_store h V A) with
    | Some (r, h3) =>
        match h3 !! plot_axis_ref h V with Some x => Some ((x, r), h3) | None => None end
    | None => None
    end.
Proof.
  destruct V, A.
  unfold plot_interactive_rodrigues_hamilton, np_array, load, mbind, py_bind, mret, py_ret;
    simpl.
  unfold plot_store, plot_axis_ref, plot_vec_ref.
  destruct (rodrigues_hamilton_rotation _ _ _ _ _) as [[r h3] |]; [| reflexivity].
  destruct (h3 !! _); reflexivity.
Qed.
End Plot.

(** X26. What the two figures draw for a finite nonzero axis: the arrow of
    the axis is the unit vector [a/||a||], not the axis as passed, because
    the arrow is read after the rotator has divided the array; both plotting
    functions draw the same two arrows; and no array that the store held
    before is changed. *)
Theorem plots_draw_unit_axis (h : heap) (v a : vec) (theta d : R) :
  a <> vzero ->
  exists (r : vec) (h' : heap),
    plot_interactive_rodrigues (Fin theta) (Fin d)
      (Fin (vx a)) (Fin (vy a)) (Fin (vz a)) (Fin (vx v)) (Fin (vy v)) (Fin (vz v)) h
    = Some ((arr (direction a), arr r), h')
    /\ plot_interactive_rodrigues_hamilton (Fin theta) (Fin d)
         (Fin (vx a)) (Fin (vy a)) (Fin (vz a)) (Fin (vx v)) (Fin (vy v)) (Fin (vz v)) h
       = Some ((arr (direction a), arr r), h')
    /\ vnorm (direction a) = 1
    /\ (forall (l : loc) (x : ndarray), h !! l = Some x -> h' !! l = Some x).
Proof.
  intros Hnz.
  pose proof (plot_lookup_vec h (arr v) (arr a)) as Hv.
  pose proof (plot_lookup_axis h (arr v) (arr a)) as Ha.
  exists (screw (direction a) v theta d),
    (<[plot_axis_ref h (arr v) := arr (direction a)]> (plot_store h (arr v) (arr a))).
  split; [| split; [| split]].
  - rewrite (run_plot_dual h (arr v) (arr a)).
    rewrite (rodrigues_rotation_fin _ _ _ v a theta d Hv Ha Hnz).
    rewrite lookup_insert_eq, seen_distinct by apply plot_refs_distinct. reflexivity.
  - rewrite (run_plot_hamilton h (arr v) (arr a)).
    rewrite (rodrigues_hamilton_rotation_fin _ _ _ v a theta d Hv Ha Hnz).
    rewrite lookup_insert_eq, seen_distinct by apply plot_refs_distinct. reflexivity.
  - apply direction_vnorm, Hnz.
  - intros l x Hl. apply plot_frame, Hl.
Qed.

Lemma plots_draw_unit_axis_witness :
  exists (r : vec) (h' : heap),
    plot_interactive_rodrigues (Fin 1) (Fin 5)
      (Fin (vx (V3 2 0 0))) (Fin (vy (V3 2 0 0))) (Fin (vz (V3 2 0 0)))
      (Fin (vx (V3 0 1 0))) (Fin (vy (V3 0 1 0))) (Fin (vz (V3 0 1 0))) store_unit
    = Some ((arr (direction (V3 2 0 0)), arr r), h')
    /\ plot_interactive_rodrigues_hamilton (Fin 1) (Fin 5)
         (Fin (vx (V3 2 0 0))) (Fin (vy (V3 2 0 0))) (Fin (vz (V3 2 0 0)))
         (Fin (vx (V3 0 1 0))) (Fin (vy (V3 0 1 0))) (Fin (vz (V3 0 1 0))) store_unit
       = Some ((arr (direction (V3 2 0 0)), arr r), h')
    /\ vnorm (direction (V3 2 0 0)) = 1
    /\ (forall (l : loc) (x : ndarray), store_unit !! l = Some x -> h' !! l = Some x).
Proof. apply plots_draw_unit_axis. exact nonzero_x2. Defined.

(** X27. With the three axis parameters at zero, which the sliders allow,
    both plotting functions get through the rotator and hand
    [(nan, nan, nan)] to [ax.quiver] for the axis arrow and for the screw
    arrow, for every vector, angle and displacement. *)
Theorem plots_zero_axis_nan (h : heap) (theta d v_x v_y v_z : float64) :
  exists h' : heap,
    plot_interactive_rodrigues theta d (Fin 0) (Fin 0) (Fin 0) v_x v_y v_z h
    = Some ((nan_array, nan_array), h')
    /\ plot_interactive_rodrigues_hamilton theta d (Fin 0) (Fin 0) (Fin 0) v_x v_y v_z h
       = Some ((nan_array, nan_array), h').
Proof.
  pose proof (plot_lookup_vec h (Arr v_x v_y v_z) (arr vzero)) as Hv.
  pose proof (plot_lookup_axis h (Arr v_x v_y v_z) (arr vzero)) as Ha.
  eexists. split.
  - rewrite (run_plot_dual h (Arr v_x v_y v_z) (arr vzero)).
    rewrite (rodrigues_rotation_zero_axis _ _ _ _ Hv Ha), lookup_insert_eq. reflexivity.
  - rewrite (run_plot_hamilton h (Arr v_x v_y v_z) (arr vzero)).
    rewrite (rodrigues_hamilton_rotation_zero_axis _ _ _ _ Hv Ha), lookup_insert_eq.
    reflexivity.
Qed.
